(** * The CSV bulk-import parser of the admin front-end

    A shallow embedding of [parseCSV] from
    [src/components/BulkUploadDialog.tsx] together with the two record
    types it fills in ([Alternative] and [CompanyFormData] of the shared
    type declarations), and the properties of the import contract.
    Around it: the other handlers of the upload dialog, the
    authentication context with the navigation and the route guard
    that ask it, and the clean-up of the company form.

    Text is modelled as [string]: one [ascii] per UTF-16 code unit, so
    the development covers texts whose code units lie below 256.  The
    runtime's string methods the parser calls ([trim], [toLowerCase],
    [split], indexing, [||]) are written out in [Module JS]. *)

From Stdlib Require Import List String Ascii Bool Arith Lia Sorted DecimalString.
Import ListNotations.

Open Scope string_scope.
Open Scope list_scope.

(** ** The string methods of the runtime *)

Module JS.

(** Line feed, the separator of [split('\n')]. *)
Definition LF : ascii := "010"%char.

(** White space and line terminators that [trim] strips, within the
    modelled range: TAB, LF, VT, FF, CR, SP and NBSP. *)
Definition isWhiteSpace (c : ascii) : bool :=
  let n := nat_of_ascii c in
  (((9 <=? n) && (n <=? 13)) || (n =? 32) || (n =? 160))%nat.

Fixpoint trimStart (s : string) : string :=
  match s with
  | EmptyString => EmptyString
  | String c rest => if isWhiteSpace c then trimStart rest else s
  end.

Fixpoint trimEnd (s : string) : string :=
  match s with
  | EmptyString => EmptyString
  | String c rest =>
      match trimEnd rest with
      | EmptyString => if isWhiteSpace c then EmptyString else String c EmptyString
      | kept => String c kept
      end
  end.

(** [s.trim()] *)
Definition trim (s : string) : string := trimEnd (trimStart s).

(** Lower-casing of one code unit: A-Z, and the Latin-1 capitals
    U+00C0..U+00DE without the multiplication sign U+00D7. *)
Definition lowerUnit (c : ascii) : ascii :=
  let n := nat_of_ascii c in
  if (((65 <=? n) && (n <=? 90))
      || ((192 <=? n) && (n <=? 222) && negb (n =? 215)))%nat
  then ascii_of_nat (n + 32)
  else c.

(** [s.toLowerCase()] *)
Fixpoint toLowerCase (s : string) : string :=
  match s with
  | EmptyString => EmptyString
  | String c rest => String (lowerUnit c) (toLowerCase rest)
  end.

(** [s.split(sep)] for a one-character separator: the pieces between
    the separators, in order; never an empty array. *)
Fixpoint split (sep : ascii) (s : string) : list string :=
  match s with
  | EmptyString => [EmptyString]
  | String c rest =>
      if Ascii.eqb c sep then EmptyString :: split sep rest
      else match split sep rest with
           | [] => [String c EmptyString]
           | piece :: pieces => String c piece :: pieces
           end
  end.

(** Truthiness of a string: anything but the empty string. *)
Definition truthy (s : string) : bool :=
  match s with
  | EmptyString => false
  | String _ _ => true
  end.

(** [v || d] where [v] is a string or [undefined] ([None]). *)
Definition orElse (v : option string) (d : string) : string :=
  match v with
  | Some s => if truthy s then s else d
  | None => d
  end.

(** What evaluating an expression gives: a value, or a [TypeError]
    thrown by a method call on [undefined]. *)
Inductive completion (A : Type) : Type :=
| Normal (a : A)
| TypeError.
Arguments Normal {A} a.
Arguments TypeError {A}.

(** [arr.forEach((x, index) => ...)] over a state that the callback
    updates. *)
Fixpoint forEach {A St : Type} (f : St -> A -> nat -> St)
         (arr : list A) (index : nat) (st : St) : St :=
  match arr with
  | [] => st
  | x :: rest => forEach f rest (S index) (f st x index)
  end.

End JS.

(** ** The data model *)

Module Alternative.
Record t : Type := mk {
  name : string;
  countryCode : string;
  description : string
}.
End Alternative.

Record CompanyFormData : Type := mkCompany {
  name : string;
  boycott : bool;
  reason : string;
  alternatives : list Alternative.t;
  barcodes : list string;
  proofUrls : list string;
  country : string
}.

Definition set_name (v : string) (c : CompanyFormData) : CompanyFormData :=
  mkCompany v (boycott c) (reason c) (alternatives c) (barcodes c) (proofUrls c) (country c).
Definition set_boycott (v : bool) (c : CompanyFormData) : CompanyFormData :=
  mkCompany (name c) v (reason c) (alternatives c) (barcodes c) (proofUrls c) (country c).
Definition set_reason (v : string) (c : CompanyFormData) : CompanyFormData :=
  mkCompany (name c) (boycott c) v (alternatives c) (barcodes c) (proofUrls c) (country c).
Definition set_alternatives (v : list Alternative.t) (c : CompanyFormData) : CompanyFormData :=
  mkCompany (name c) (boycott c) (reason c) v (barcodes c) (proofUrls c) (country c).
Definition set_barcodes (v : list string) (c : CompanyFormData) : CompanyFormData :=
  mkCompany (name c) (boycott c) (reason c) (alternatives c) v (proofUrls c) (country c).
Definition set_proofUrls (v : list string) (c : CompanyFormData) : CompanyFormData :=
  mkCompany (name c) (boycott c) (reason c) (alternatives c) (barcodes c) v (country c).
Definition set_country (v : string) (c : CompanyFormData) : CompanyFormData :=
  mkCompany (name c) (boycott c) (reason c) (alternatives c) (barcodes c) (proofUrls c) v.

(** ** parseCSV *)

(** The object literal a row starts from. *)
Definition emptyCompany : CompanyFormData :=
  {| name := ""; boycott := false; reason := ""; alternatives := [];
     barcodes := []; proofUrls := []; country := "GLOBAL" |}.

(** [value.toLowerCase() === 'true' || value.toLowerCase() === 'yes'] *)
Definition decodeBoycott (value : string) : bool :=
  (JS.toLowerCase value =? "true") || (JS.toLowerCase value =? "yes").

(** The callback of [value.split(';').map(alt => ...)]:
    [parts[k]?.trim() || default]. *)
Definition decodeAlternative (alt : string) : Alternative.t :=
  let parts := JS.split ":" (JS.trim alt) in
  {| Alternative.name := JS.orElse (option_map JS.trim (nth_error parts 0)) "";
     Alternative.countryCode := JS.orElse (option_map JS.trim (nth_error parts 1)) "GLOBAL";
     Alternative.description := JS.orElse (option_map JS.trim (nth_error parts 2)) "" |}.

(** [value.split(';').map(...).filter(alt => alt.name)] *)
Definition decodeAlternatives (value : string) : list Alternative.t :=
  filter (fun alt => JS.truthy (Alternative.name alt))
         (map decodeAlternative (JS.split ";" value)).

(** [value ? value.split(';').map(b => b.trim()).filter(b => b) : []] *)
Definition decodeList (value : string) : list string :=
  if JS.truthy value
  then filter JS.truthy (map JS.trim (JS.split ";" value))
  else [].

(** [values[index] || '']: indexing past the end of the row gives
    [undefined], which [||] turns into the empty string. *)
Definition cell (values : list string) (index : nat) : string :=
  JS.orElse (nth_error values index) "".

(** The callback of [headers.forEach((header, index) => ...)]: the
    [switch] over the header, applied to the cell of that column. *)
Definition applyHeader (values : list string)
           (company : CompanyFormData) (header : string) (index : nat)
  : CompanyFormData :=
  let value := cell values index in
  if header =? "name" then set_name value company
  else if header =? "boycott" then set_boycott (decodeBoycott value) company
  else if header =? "reason" then set_reason value company
  else if header =? "country" then set_country (JS.orElse (Some value) "GLOBAL") company
  else if header =? "alternatives" then
    if JS.truthy value then set_alternatives (decodeAlternatives value) company
    else company
  else if header =? "barcodes" then set_barcodes (decodeList value) company
  else if (header =? "proofurls") || (header =? "proof_urls") then
    set_proofUrls (decodeList value) company
  else company.

(** [lines[i].split(',').map(v => v.trim())] *)
Definition rowValues (line : string) : list string :=
  map JS.trim (JS.split "," line).

(** The body of the [for] loop up to the admission test: the company
    decoded from one line. *)
Definition parseRow (headers : list string) (line : string) : CompanyFormData :=
  let values := rowValues line in
  JS.forEach (applyHeader values) headers 0 emptyCompany.

(** [company.name && company.reason] *)
Definition admitted (company : CompanyFormData) : bool :=
  JS.truthy (name company) && JS.truthy (reason company).

(** [if (company.name && company.reason) companies.push(company)] *)
Definition pushIfAdmitted (companies : list CompanyFormData)
           (company : CompanyFormData) : list CompanyFormData :=
  if admitted company then companies ++ [company] else companies.

(** [for (let i = 1; i < lines.length; i++) { ... }], with [todo] the
    number of iterations left, [lines.length - i]. *)
Fixpoint forRows (lines headers : list string) (todo i : nat)
         (companies : list CompanyFormData)
  : JS.completion (list CompanyFormData) :=
  match todo with
  | 0 => JS.Normal companies
  | S todo' =>
      match nth_error lines i with
      | None => JS.TypeError
      | Some line =>
          forRows lines headers todo' (S i)
                  (pushIfAdmitted companies (parseRow headers line))
      end
  end.

(** [csvData.trim().split('\n')] *)
Definition linesOf (csvData : string) : list string :=
  JS.split JS.LF (JS.trim csvData).

(** [lines[0].split(',').map(h => h.trim().toLowerCase())] *)
Definition headersOf (line0 : string) : list string :=
  map (fun h => JS.toLowerCase (JS.trim h)) (JS.split "," line0).

Definition parseCSV (csvData : string) : JS.completion (list CompanyFormData) :=
  let lines := linesOf csvData in
  match nth_error lines 0 with
  | None => JS.TypeError
  | Some line0 =>
      let headers := headersOf line0 in
      forRows lines headers (List.length lines - 1) 1 []
  end.

(** ** Sample texts *)

Definition nl : string := String JS.LF EmptyString.
Definition dquote : string := String "034"%char EmptyString.

Definition sampleHeader : string :=
  "name,boycott,reason,country,alternatives,barcodes,proofurls".

Definition sampleRow : string :=
  "Sample Co,true,Environmental concerns,IN," ++ dquote ++ "Alt A:IN:desc"
  ++ dquote ++ ",111111111111,https://x.test/a".

(** A header line followed by a line break and nothing else. *)
Definition headerOnly : string := "name,boycott,reason" ++ nl.

(** The template that [downloadSampleCSV] hands out. *)
Definition sampleData : string :=
  "name,boycott,reason,country,alternatives,barcodes,proofurls" ++ nl
  ++ "Sample Company A,true,Environmental concerns,IN," ++ dquote
  ++ "Dr Pepper:IN:Organic alternative;RC Cola:PK:Local brand" ++ dquote
  ++ ",1111111111111;2222222222222,https://example.com/article1" ++ nl
  ++ "Sample Company B,false,No current issues,US," ++ dquote
  ++ "Local Brand:US:Regional alternative" ++ dquote
  ++ ",3333333333333,https://example.com/article2".

(** Two data rows with the same content. *)
Definition twinRows : string :=
  "name,reason" ++ nl ++ "Acme,why" ++ nl ++ "Acme,why".

(** A first data row without a name, then a complete one. *)
Definition gapRows : string :=
  "name,reason" ++ nl ++ ",why" ++ nl ++ "Acme,why".

(** A data row that stops before the last column of the header. *)
Definition shortRow : string :=
  "name,reason,country,barcodes" ++ nl ++ "Acme,why".

Definition acme : CompanyFormData :=
  {| name := "Acme"; boycott := false; reason := "why"; alternatives := [];
     barcodes := []; proofUrls := []; country := "GLOBAL" |}.

(** ** Views of one call used in the statements *)

(** The header line [lines[0]] and the data lines [lines[1..]]. *)
Definition headerLine (csvData : string) : string :=
  nth 0 (linesOf csvData) "".

Definition headerRow (csvData : string) : list string :=
  headersOf (headerLine csvData).

Definition dataLines (csvData : string) : list string :=
  skipn 1 (linesOf csvData).

(** The company the loop body builds at index [i]. *)
Definition companyAt (csvData : string) (i : nat) : CompanyFormData :=
  parseRow (headerRow csvData) (nth i (linesOf csvData) "").

(** The values of the loop variable [i] at which [push] is reached. *)
Definition emittedRows (csvData : string) : list nat :=
  filter (fun i => admitted (companyAt csvData i))
         (seq 1 (List.length (linesOf csvData) - 1)).

(** A way to read a row number off a record agrees with a call when it
    gives, for each returned record, the loop index that pushed it. *)
Definition carriesRowNumbers (rowOf : CompanyFormData -> nat)
           (csvData : string) : Prop :=
  forall companies,
    parseCSV csvData = JS.Normal companies ->
    map rowOf companies = emittedRows csvData.

(** ** The loop as a transition system

    The same [for] loop, one iteration per step, to speak about every
    execution of a call rather than about the value of a function. *)

Inductive config : Type :=
| Running (i : nat) (companies : list CompanyFormData)
| Returned (companies : list CompanyFormData)
| Threw.

Inductive step (lines headers : list string) : config -> config -> Prop :=
| step_body : forall i companies line,
    i < List.length lines ->
    nth_error lines i = Some line ->
    step lines headers (Running i companies)
         (Running (S i) (pushIfAdmitted companies (parseRow headers line)))
| step_undefined : forall i companies,
    i < List.length lines ->
    nth_error lines i = None ->
    step lines headers (Running i companies) Threw
| step_return : forall i companies,
    List.length lines <= i ->
    step lines headers (Running i companies) (Returned companies).

Inductive steps (lines headers : list string) : config -> config -> Prop :=
| steps_done : forall c, steps lines headers c c
| steps_next : forall c1 c2 c3,
    step lines headers c1 c2 ->
    steps lines headers c2 c3 ->
    steps lines headers c1 c3.

Definition final (c : config) : Prop :=
  match c with
  | Running _ _ => False
  | Returned _ | Threw => True
  end.

(** An execution of [parseCSV(csvData)] ending in [c]. *)
Inductive runs (csvData : string) (c : config) : Prop :=
| runs_no_header :
    nth_error (linesOf csvData) 0 = None ->
    c = Threw ->
    runs csvData c
| runs_loop : forall line0,
    nth_error (linesOf csvData) 0 = Some line0 ->
    steps (linesOf csvData) (headersOf line0) (Running 1 []) c ->
    final c ->
    runs csvData c.

Definition configOf (r : JS.completion (list CompanyFormData)) : config :=
  match r with
  | JS.Normal companies => Returned companies
  | JS.TypeError => Threw
  end.

(** ** parseCSV with its objects in a store

    The same function with the two objects it mutates kept where the
    code keeps them: the array [companies] and, for each row, the
    object [company], both allocated by the call and reached through
    references.  The store a call starts from is whatever the program
    has allocated before, results of earlier calls included. *)

Module OnHeap.

Inductive object : Type :=
| CompanyObject (fields : CompanyFormData)
| ArrayObject (items : list nat).

(** The store: the objects allocated so far, by address. *)
Definition heap : Type := list object.

(** A literal allocates: the new object gets the next address. *)
Definition allocate (o : object) (h : heap) : nat * heap :=
  (List.length h, h ++ [o]).

(** Overwriting the object at an address. *)
Fixpoint store (address : nat) (o : object) (h : heap) : heap :=
  match h with
  | [] => []
  | x :: rest =>
      match address with
      | 0 => o :: rest
      | S a => x :: store a o rest
      end
  end.

(** The callback of [headers.forEach]: the assignment of the [switch]
    made on the object that [company] refers to. *)
Definition assign (values : list string) (company : nat)
           (h : heap) (header : string) (index : nat) : heap :=
  match nth_error h company with
  | Some (CompanyObject fields) =>
      store company (CompanyObject (applyHeader values fields header index)) h
  | _ => h
  end.

(** [companies.push(company)]: the reference is appended to the array
    that [companies] refers to. *)
Definition push (companies company : nat) (h : heap) : heap :=
  match nth_error h companies with
  | Some (ArrayObject items) =>
      store companies (ArrayObject (items ++ [company])) h
  | _ => h
  end.

(** The body of the [for] loop: a new [company] object, the
    [forEach], the test on its [name] and [reason], the [push]. *)
Definition body (headers : list string) (line : string)
           (companies : nat) (h : heap) : heap :=
  let values := rowValues line in
  let (company, h1) := allocate (CompanyObject emptyCompany) h in
  let h2 := JS.forEach (assign values company) headers 0 h1 in
  match nth_error h2 company with
  | Some (CompanyObject fields) =>
      if admitted fields then push companies company h2 else h2
  | _ => h2
  end.

Fixpoint forRows (lines headers : list string) (todo i : nat)
         (companies : nat) (h : heap) : JS.completion heap :=
  match todo with
  | 0 => JS.Normal h
  | S todo' =>
      match nth_error lines i with
      | None => JS.TypeError
      | Some line =>
          forRows lines headers todo' (S i) companies
                  (body headers line companies h)
      end
  end.

(** [parseCSV]: the reference it returns and the store it leaves. *)
Definition parseCSV (csvData : string) (h : heap)
  : JS.completion (nat * heap) :=
  let lines := linesOf csvData in
  match nth_error lines 0 with
  | None => JS.TypeError
  | Some line0 =>
      let headers := headersOf line0 in
      let (companies, h1) := allocate (ArrayObject []) h in
      match forRows lines headers (List.length lines - 1) 1 companies h1 with
      | JS.Normal h2 => JS.Normal (companies, h2)
      | JS.TypeError => JS.TypeError
      end
  end.

(** Reading a result structurally: the records behind the references
    of an array, in order. *)
Definition fieldsAt (h : heap) (address : nat) : option CompanyFormData :=
  match nth_error h address with
  | Some (CompanyObject fields) => Some fields
  | _ => None
  end.

Fixpoint collect (h : heap) (items : list nat) : option (list CompanyFormData) :=
  match items with
  | [] => Some []
  | item :: rest =>
      match fieldsAt h item, collect h rest with
      | Some fields, Some others => Some (fields :: others)
      | _, _ => None
      end
  end.

Definition contents (h : heap) (address : nat) : option (list CompanyFormData) :=
  match nth_error h address with
  | Some (ArrayObject items) => collect h items
  | _ => None
  end.

(** What the loop keeps about the array [companies] while it runs:
    it holds references to objects allocated after it, whose records
    are [pushed]. *)
Definition holds (h : heap) (companies : nat) (items : list nat)
           (pushed : list CompanyFormData) : Prop :=
  nth_error h companies = Some (ArrayObject items)
  /\ Forall (fun item => companies < item < List.length h) items
  /\ collect h items = Some pushed.

End OnHeap.

(** ** The upload dialog around parseCSV

    The rest of [BulkUploadDialog]: its state, the handlers that change
    it, and what [handleUpload] does with the parsed records.  The
    answer types are those of the shared type declarations. *)

Module BulkUploadResult.
Inductive action : Type := created | updated | no_changes.
Record t : Type := mk {
  row : nat;
  success : bool;
  company : option string;
  error : option string;
  action_ : option action;
  newBarcodes : option (list string);
  message : option string
}.
End BulkUploadResult.

Module BarcodeConflict.
Record other : Type := mkOther {
  otherCompany : string;
  barcodes : list string
}.
Record t : Type := mk {
  row : nat;
  company : string;
  conflicts : list other
}.
End BarcodeConflict.

Module Summary.
Record t : Type := mk {
  total : nat;
  successful : nat;
  failed : nat
}.
End Summary.

Module BulkUploadResponse.
Record t : Type := mk {
  success : bool;
  message : string;
  results : list BulkUploadResult.t;
  errors : list BulkUploadResult.t;
  barcodeConflicts : option (list BarcodeConflict.t);
  summary : Summary.t
}.
End BulkUploadResponse.

(** What the [catch] block reads of a thrown value, [error.response?.data]:
    its [message], the [message] of each entry of [errors] and the
    [barcode] of each entry of [barcodeConflicts]; [None] stands for
    [undefined].  [errors] and [barcodeConflicts], where present, are
    arrays of objects. *)
Module ErrorData.
Record t : Type := mk {
  message : option string;
  errors : option (list (option string));
  barcodeConflicts : option (list (option string))
}.
End ErrorData.

(** A thrown value, as far as the [catch] block tells: [null] or
    [undefined], on which [error.response] itself throws, or any other
    value, with its [response?.data] ([None] when it has none). *)
Inductive thrown : Type :=
| Nullish
| Value (data : option ErrorData.t).

(** How the call [await bulkUploadApi.upload(companies)] ends: with a
    response, or with a thrown value. *)
Inductive apiOutcome : Type :=
| Resolved (response : BulkUploadResponse.t)
| Rejected (error : thrown).

(** The state of the dialog ([useState]). *)
Record DialogState : Type := mkDialog {
  isUploading : bool;
  uploadResults : option BulkUploadResponse.t;
  csvData : string
}.

(** What a handler does, in order: state setters, toasts, the call of
    the upload service, the callbacks of the dialog's owner, and a
    [TypeError] raised inside the [catch] block, with which the handler
    ends once [finally] has run.  Setters, toasts and callbacks are
    taken to return normally. *)
Inductive event : Type :=
| SetIsUploading (b : bool)
| SetUploadResults (r : option BulkUploadResponse.t)
| SetCsvData (text : string)
| ToastError (msg : string)
| ToastSuccess (msg : string)
| ConsoleError
| ApiUpload (companies : list CompanyFormData)
| OnSuccess
| OnClose
| CatchThrows.

(** The state once the setters among the events have been applied. *)
Definition afterEvent (st : DialogState) (e : event) : DialogState :=
  match e with
  | SetIsUploading b => mkDialog b (uploadResults st) (csvData st)
  | SetUploadResults r => mkDialog (isUploading st) r (csvData st)
  | SetCsvData text => mkDialog (isUploading st) (uploadResults st) text
  | _ => st
  end.

Definition afterEvents (st : DialogState) (events : list event) : DialogState :=
  fold_left afterEvent events st.

(** Template literals print a count in decimal. *)
Definition numberToString (n : nat) : string :=
  NilEmpty.string_of_uint (Nat.to_uint n).

(** [arr.join(sep)], where an [undefined] element prints as nothing. *)
Fixpoint join (sep : string) (arr : list (option string)) : string :=
  match arr with
  | [] => ""
  | x :: rest =>
      let shown := match x with Some s => s | None => "" end in
      match rest with
      | [] => shown
      | _ :: _ => shown ++ sep ++ join sep rest
      end
  end.

(** [arr && arr.length > 0] *)
Definition nonEmptyArray {A : Type} (arr : option (list A)) : bool :=
  match arr with
  | Some (_ :: _) => true
  | _ => false
  end.

(** Truthiness of a field that holds a string or is [undefined]. *)
Definition truthyField (v : option string) : bool :=
  match v with
  | Some s => JS.truthy s
  | None => false
  end.

(** The message the [catch] block of [handleUpload] shows. *)
Definition uploadErrorMessage (data : option ErrorData.t) : string :=
  match data with
  | None => "Failed to upload companies"
  | Some d =>
      if truthyField (ErrorData.message d)
      then "Upload failed: " ++ JS.orElse (ErrorData.message d) ""
      else if nonEmptyArray (ErrorData.errors d)
      then "Upload failed: "
           ++ join ", " (match ErrorData.errors d with Some l => l | None => [] end)
      else if nonEmptyArray (ErrorData.barcodeConflicts d)
      then "Barcode conflicts found: "
           ++ join ", " (match ErrorData.barcodeConflicts d with
                         | Some l => l | None => [] end)
      else "Failed to upload companies"
  end.

(** The [catch] block: [console.error], then the tests on
    [error.response], which throw when the value caught is [null] or
    [undefined] and lead to one toast otherwise. *)
Definition uploadCatch (error : thrown) : list event :=
  match error with
  | Nullish => [ConsoleError; CatchThrows]
  | Value data => [ConsoleError; ToastError (uploadErrorMessage data)]
  end.

(** [handleUpload], with the upload service as a parameter.  The
    [finally] block closes every path that entered the [try]. *)
Definition handleUpload (upload : list CompanyFormData -> apiOutcome)
           (st : DialogState) : list event :=
  if negb (JS.truthy (JS.trim (csvData st)))
  then [ToastError "Please upload a CSV file first"]
  else
    [SetIsUploading true]
    ++ match parseCSV (csvData st) with
       | JS.TypeError => uploadCatch (Value None)
       | JS.Normal companies =>
           if (List.length companies =? 0)%nat
           then [ToastError "No valid companies found in CSV"]
           else
             ApiUpload companies
             :: match upload companies with
                | Resolved response =>
                    SetUploadResults (Some response)
                    :: (if BulkUploadResponse.success response
                        then [ToastSuccess
                                ("Successfully uploaded "
                                 ++ numberToString
                                      (Summary.successful
                                         (BulkUploadResponse.summary response))
                                 ++ " companies");
                              OnSuccess]
                        else [ToastError "Upload failed"])
                | Rejected error => uploadCatch error
                end
       end
    ++ [SetIsUploading false].

(** [handleClose] *)
Definition handleClose : list event :=
  [SetCsvData ""; SetUploadResults None; OnClose].

(** [handleFileUpload], with the text the reader loads from the chosen
    file; [None] when no file was chosen. *)
Definition handleFileUpload (file : option string) : list event :=
  match file with
  | None => []
  | Some text => [SetCsvData text]
  end.

Definition isToast (e : event) : bool :=
  match e with
  | ToastError _ | ToastSuccess _ => true
  | _ => false
  end.

Definition isApiUpload (e : event) : bool :=
  match e with
  | ApiUpload _ => true
  | _ => false
  end.

(** The handlers of the dialog, run one after the other from the
    state the dialog is created with. *)
Inductive handler : Type :=
| ChooseFile (file : option string)
| Upload (upload : list CompanyFormData -> apiOutcome)
| Close.

Definition runHandler (st : DialogState) (h : handler) : DialogState :=
  afterEvents st
    match h with
    | ChooseFile file => handleFileUpload file
    | Upload upload => handleUpload upload st
    | Close => handleClose
    end.

Definition initialDialog : DialogState := mkDialog false None "".

(** ** Authorisation

    [AuthProvider] of the authentication context, the navigation of
    [Layout] and [ProtectedRoute], which ask it. *)

Inductive Role : Type := super_admin | admin | moderator.

Definition roleName (r : Role) : string :=
  match r with
  | super_admin => "super_admin"
  | admin => "admin"
  | moderator => "moderator"
  end.

(** The six flags of [User.permissions]. *)
Record Permissions : Type := mkPermissions {
  canCreateCompanies : bool;
  canEditCompanies : bool;
  canDeleteCompanies : bool;
  canBulkUpload : bool;
  canManageUsers : bool;
  canViewAnalytics : bool
}.

(** The members every ordinary object inherits from
    [Object.prototype]; looked up by name, each of them is truthy. *)
Definition inheritedMember (key : string) : bool :=
  existsb (String.eqb key)
    [ "constructor"; "hasOwnProperty"; "isPrototypeOf";
      "propertyIsEnumerable"; "toLocaleString"; "toString"; "valueOf";
      "__proto__"; "__defineGetter__"; "__defineSetter__";
      "__lookupGetter__"; "__lookupSetter__" ].

(** A permissions object is asked by name, [permissions[key]]; it is
    modelled by the truthiness of that lookup.  [permissionsObject]
    is the ordinary object whose own properties are the six flags:
    any other name finds an inherited member or nothing. *)
Definition permissionsObject (p : Permissions) : string -> bool :=
  fun key =>
    if key =? "canCreateCompanies" then canCreateCompanies p
    else if key =? "canEditCompanies" then canEditCompanies p
    else if key =? "canDeleteCompanies" then canDeleteCompanies p
    else if key =? "canBulkUpload" then canBulkUpload p
    else if key =? "canManageUsers" then canManageUsers p
    else if key =? "canViewAnalytics" then canViewAnalytics p
    else inheritedMember key.

Module User.
Record t : Type := mk {
  _id : string;
  username : string;
  email : string;
  role : Role;
  isActive : bool;
  permissions : option (string -> bool);
  lastLogin : option string;
  createdAt : string;
  updatedAt : string
}.
End User.

(** The state of [AuthProvider], with the [token] item of the local
    storage beside it. *)
Record AuthState : Type := mkAuth {
  user : option User.t;
  token : option string;
  isLoading : bool;
  storedToken : option string
}.

(** The state [AuthProvider] starts in: no user, the stored token,
    loading. *)
Definition initialAuth (stored : option string) : AuthState :=
  mkAuth None stored true stored.

(** [hasPermission] *)
Definition hasPermission (auth : AuthState) (permission : string) : bool :=
  match user auth with
  | None => false
  | Some u =>
      match User.role u with
      | super_admin => true
      | _ =>
          match User.permissions u with
          | Some object => object permission
          | None => false
          end
      end
  end.

(** [hasRole], called with one role or with an array of roles. *)
Definition hasRole (auth : AuthState) (role : string + list string) : bool :=
  match user auth with
  | None => false
  | Some u =>
      let allowedRoles :=
        match role with
        | inl one => [one]
        | inr several => several
        end in
      existsb (String.eqb (roleName (User.role u))) allowedRoles
  end.

(** [logout] *)
Definition logout (auth : AuthState) : AuthState :=
  mkAuth None None (isLoading auth) None.

(** The body of an answer to [authApi.login], [response.data]. *)
Module LoginResponse.
Record t : Type := mk {
  success : bool;
  message : string;
  token : option string;
  user : option User.t
}.
End LoginResponse.

(** [login], with the answer of the service ([None] when the call
    throws): the new state and the returned boolean. *)
Definition login (answer : option LoginResponse.t) (auth : AuthState)
  : AuthState * bool :=
  match answer with
  | Some data =>
      match LoginResponse.token data, LoginResponse.user data with
      | Some t, Some u =>
          if LoginResponse.success data && JS.truthy t
          then (mkAuth (Some u) (Some t) (isLoading auth) (Some t), true)
          else (auth, false)
      | _, _ => (auth, false)
      end
  | None => (auth, false)
  end.

Record PaginationInfo : Type := mkPagination {
  currentPage : nat;
  totalPages : nat;
  totalItems : nat;
  itemsPerPage : nat;
  hasNextPage : bool;
  hasPrevPage : bool
}.

(** The body of an answer to [authApi.getProfile], an [ApiResponse]
    carrying a user. *)
Module ProfileResponse.
Record t : Type := mk {
  success : bool;
  message : string;
  data : option User.t;
  pagination : option PaginationInfo;
  error : option string
}.
End ProfileResponse.

(** [initializeAuth], the effect run for the current token, with the
    answer of the service ([None] when the call throws). *)
Definition initializeAuth (answer : option ProfileResponse.t)
           (auth : AuthState) : AuthState :=
  if truthyField (token auth)
  then
    match answer with
    | Some r =>
        match ProfileResponse.data r with
        | Some u =>
            if ProfileResponse.success r
            then mkAuth (Some u) (token auth) false (storedToken auth)
            else mkAuth (user auth) None false None
        | None => mkAuth (user auth) None false None
        end
    | None => mkAuth (user auth) None false None
    end
  else mkAuth (user auth) (token auth) false (storedToken auth).

(** What can happen to the authentication state. *)
Inductive authStep : Type :=
| Login (answer : option LoginResponse.t)
| Logout
| InitializeAuth (answer : option ProfileResponse.t).

Definition runAuthStep (auth : AuthState) (s : authStep) : AuthState :=
  match s with
  | Login answer => fst (login answer auth)
  | Logout => logout auth
  | InitializeAuth answer => initializeAuth answer auth
  end.

(** An entry of the navigation of [Layout]. *)
Record NavItem : Type := mkNav {
  navName : string;
  href : string;
  icon : string;
  navPermission : option string;
  navRole : option string
}.

Definition navigationItems : list NavItem :=
  [ mkNav "Companies" "/" "Building2" None None;
    mkNav "Add Company" "/add" "Plus" (Some "canCreateCompanies") None;
    mkNav "Bulk Upload" "/bulk-upload" "Upload" (Some "canBulkUpload") None;
    mkNav "Analytics" "/analytics" "BarChart3" (Some "canViewAnalytics") None;
    mkNav "User Management" "/users" "Users" (Some "canManageUsers")
          (Some "super_admin") ].

(** The callback of [.filter(item => ...)] in [Layout]. *)
Definition navVisible (auth : AuthState) (item : NavItem) : bool :=
  if truthyField (navRole item)
     && negb (hasRole auth (inl (JS.orElse (navRole item) "")))
  then false
  else if truthyField (navPermission item)
          && negb (hasPermission auth (JS.orElse (navPermission item) ""))
  then false
  else true.

Definition navigation (auth : AuthState) : list NavItem :=
  filter (navVisible auth) navigationItems.

(** What [ProtectedRoute] returns. *)
Inductive routeView : Type :=
| Spinner
| NavigateTo (path : string)
| ShowFallback
| ShowChildren.

(** Truthiness of [requireRole]: a non-empty string or any array. *)
Definition truthyRole (role : option (string + list string)) : bool :=
  match role with
  | Some (inl one) => JS.truthy one
  | Some (inr _) => true
  | None => false
  end.

(** [ProtectedRoute], with [fallback] given by whether it is there. *)
Definition ProtectedRoute (auth : AuthState)
           (requirePermission : option string)
           (requireRole : option (string + list string))
           (fallback : bool) : routeView :=
  if isLoading auth then Spinner
  else
    match user auth with
    | None => NavigateTo "/login"
    | Some _ =>
        if truthyField requirePermission
           && negb (hasPermission auth (JS.orElse requirePermission ""))
        then (if fallback then ShowFallback else NavigateTo "/")
        else if truthyRole requireRole
                && negb (hasRole auth
                           (match requireRole with
                            | Some r => r
                            | None => inr []
                            end))
        then (if fallback then ShowFallback else NavigateTo "/")
        else ShowChildren
    end.

(** ** The form's clean-up of a company *)

(** [onFormSubmit] of [CompanyForm]: the data handed to [onSubmit]. *)
Definition onFormSubmit (data : CompanyFormData) : CompanyFormData :=
  {| name := name data;
     boycott := boycott data;
     reason := reason data;
     alternatives :=
       filter (fun alt => negb (JS.trim (Alternative.name alt) =? ""))
              (alternatives data);
     barcodes :=
       filter (fun barcode => negb (JS.trim barcode =? "")) (barcodes data);
     proofUrls :=
       filter (fun url => negb (JS.trim url =? "")) (proofUrls data);
     country := country data |}.

(** Sample users and states for the statements below. *)
Definition uploaderPermissions : Permissions :=
  mkPermissions false false false true true false.

Definition someUser (r : Role) : User.t :=
  User.mk "u1" "sam" "sam@example.org" r true
          (Some (permissionsObject uploaderPermissions)) None "" "".

Definition signedIn (r : Role) : AuthState :=
  mkAuth (Some (someUser r)) (Some "t0k3n") false (Some "t0k3n").

(** ** Texts and predicates used to state further properties *)

(** Carriage return, as a one-character string. *)
Definition CR : string := String "013"%char EmptyString.

(** The same text with Windows line ends: CR LF for every LF. *)
Fixpoint crlf (s : string) : string :=
  match s with
  | EmptyString => EmptyString
  | String c rest =>
      if Ascii.eqb c JS.LF
      then String "013"%char (String JS.LF (crlf rest))
      else String c (crlf rest)
  end.

(** A line and the same line possibly followed by a carriage return. *)
Definition upToCR (line line' : string) : Prop :=
  line' = line \/ line' = (line ++ CR)%string.

(** A string that is not empty and has no white space around it. *)
Definition clean (s : string) : Prop := s <> "" /\ JS.trim s = s.

(** An alternative whose name and country code are clean and whose
    description has no white space around it. *)
Definition cleanAlternative (alt : Alternative.t) : Prop :=
  clean (Alternative.name alt)
  /\ clean (Alternative.countryCode alt)
  /\ JS.trim (Alternative.description alt) = Alternative.description alt.

(** A record as the parser means to hand it on: every text field
    trimmed, no empty name, reason, country, barcode, proof URL,
    alternative name or alternative country code. *)
Definition cleanCompany (c : CompanyFormData) : Prop :=
  clean (name c) /\ clean (reason c) /\ clean (country c)
  /\ Forall cleanAlternative (alternatives c)
  /\ Forall clean (barcodes c)
  /\ Forall clean (proofUrls c).

(** What every step of the callback keeps on a trimmed row: as
    [cleanCompany], but name and reason may still be empty. *)
Definition tidy (c : CompanyFormData) : Prop :=
  JS.trim (name c) = name c /\ JS.trim (reason c) = reason c
  /\ clean (country c)
  /\ Forall cleanAlternative (alternatives c)
  /\ Forall clean (barcodes c)
  /\ Forall clean (proofUrls c).

(** A header line in capitals, and a text with padding around it. *)
Definition shoutedHeader : string := "Name, REASON ,Country".

(** A header without a name column. *)
Definition misnamedRows : string :=
  "company,reason" ++ nl ++ "Acme,why".

(** No white space in front of a string. *)
Definition cleanStart (s : string) : Prop :=
  match s with
  | EmptyString => True
  | String c _ => JS.isWhiteSpace c = false
  end.

(** Case analysis along the [switch] of [applyHeader]. *)
Ltac switch header :=
  unfold applyHeader;
  repeat match goal with
         | |- context [String.eqb header ?k] =>
             destruct (String.eqb_spec header k) as [?E|?E];
             [try (rewrite E in *; clear E) | ]
         end;
  cbn [orb name boycott reason alternatives barcodes proofUrls country
       set_name set_boycott set_reason set_alternatives set_barcodes
       set_proofUrls set_country].

(** ** Facts about the string methods *)

Section StringFacts.

Import JS.

Lemma truthy_true_iff (s : string) : truthy s = true <-> s <> "".
Proof.
  destruct s; simpl; split; intro H; congruence.
Qed.

Lemma truthy_false_iff (s : string) : truthy s = false <-> s = "".
Proof.
  destruct s; simpl; split; intro H; congruence.
Qed.

Lemma orElse_empty_default (v : option string) :
  orElse v "" = match v with Some s => s | None => "" end.
Proof.
  destruct v as [s|]; simpl; trivial.
  destruct s; reflexivity.
Qed.

Lemma split_not_nil (sep : ascii) (s : string) : split sep s <> [].
Proof.
  induction s as [|c rest IH]; simpl.
  - discriminate.
  - destruct (Ascii.eqb c sep); [discriminate|].
    destruct (split sep rest); discriminate.
Qed.

Lemma split_head (sep : ascii) (s : string) :
  exists piece pieces, split sep s = piece :: pieces.
Proof.
  pose proof (split_not_nil sep s) as H.
  destruct (split sep s) as [|piece pieces]; [congruence|eauto].
Qed.

(** A separator at the very end opens one more, empty, piece. *)
Lemma split_trailing_sep (sep : ascii) (s : string) :
  split sep (s ++ String sep "") = split sep s ++ [""].
Proof.
  induction s as [|c rest IH]; simpl.
  - rewrite Ascii.eqb_refl. reflexivity.
  - destruct (Ascii.eqb c sep).
    + rewrite IH. reflexivity.
    + rewrite IH.
      destruct (split_head sep rest) as (piece & pieces & E).
      rewrite E. reflexivity.
Qed.

Lemma trimStart_cleanStart (s : string) : cleanStart (trimStart s).
Proof.
  induction s as [|c rest IH]; simpl; trivial.
  destruct (isWhiteSpace c) eqn:E; simpl; trivial.
Qed.

Lemma trimStart_fixes_clean (s : string) : cleanStart s -> trimStart s = s.
Proof.
  destruct s as [|c rest]; simpl; trivial.
  intros ->. reflexivity.
Qed.

Lemma trimEnd_cons_clean (c : ascii) (rest : string) :
  isWhiteSpace c = false -> trimEnd (String c rest) = String c (trimEnd rest).
Proof.
  intros E. simpl. rewrite E. destruct (trimEnd rest); reflexivity.
Qed.

Lemma trimEnd_cleanStart (s : string) : cleanStart s -> cleanStart (trimEnd s).
Proof.
  destruct s as [|c rest]; trivial.
  intros E. simpl in E. rewrite trimEnd_cons_clean by assumption.
  exact E.
Qed.

Lemma trimEnd_cons_kept (c : ascii) (rest : string) :
  trimEnd rest <> "" -> trimEnd (String c rest) = String c (trimEnd rest).
Proof.
  intros H. simpl. destruct (trimEnd rest); [congruence | reflexivity].
Qed.

Lemma trimEnd_idempotent (s : string) : trimEnd (trimEnd s) = trimEnd s.
Proof.
  induction s as [|c rest IH]; trivial.
  destruct (string_dec (trimEnd rest) "") as [E|E].
  - simpl. rewrite E.
    destruct (isWhiteSpace c) eqn:W; simpl; trivial.
    rewrite W. reflexivity.
  - rewrite (trimEnd_cons_kept c rest E).
    rewrite trimEnd_cons_kept; rewrite IH; trivial.
Qed.

Lemma trim_idempotent (s : string) : trim (trim s) = trim s.
Proof.
  unfold trim.
  rewrite (trimStart_fixes_clean (trimEnd (trimStart s))).
  - apply trimEnd_idempotent.
  - apply trimEnd_cleanStart, trimStart_cleanStart.
Qed.

End StringFacts.

(** ** Facts about the callback and the loop *)

Section RowFacts.

Import JS.

Lemma forEach_app {A St : Type} (f : St -> A -> nat -> St)
      (xs ys : list A) (i : nat) (st : St) :
  forEach f (xs ++ ys) i st = forEach f ys (i + List.length xs) (forEach f xs i st).
Proof.
  revert i st.
  induction xs as [|x xs IH]; intros i st; simpl.
  - f_equal. lia.
  - rewrite IH. f_equal. lia.
Qed.

(** A property that every admissible callback step keeps is kept by
    the whole [forEach]. *)
Lemma forEach_invariant {A St : Type} (f : St -> A -> nat -> St)
      (ok : A -> Prop) (P : St -> Prop) :
  (forall st x i, ok x -> P st -> P (f st x i)) ->
  forall xs i st, Forall ok xs -> P st -> P (forEach f xs i st).
Proof.
  intros Hstep xs.
  induction xs as [|x xs IH]; intros i st Hok HP; simpl; trivial.
  inversion Hok; subst.
  apply IH; auto.
Qed.



Lemma applyHeader_keeps_barcodes values c h i :
  h <> "barcodes" -> barcodes (applyHeader values c h i) = barcodes c.
Proof.
  intros N. switch h; try reflexivity; try congruence.
  destruct (truthy _); reflexivity.
Qed.

Lemma applyHeader_keeps_proofUrls values c h i :
  h <> "proofurls" -> h <> "proof_urls" ->
  proofUrls (applyHeader values c h i) = proofUrls c.
Proof.
  intros N1 N2. switch h; try reflexivity; try congruence.
  destruct (truthy _); reflexivity.
Qed.


Lemma applyHeader_barcodes values c i :
  barcodes (applyHeader values c "barcodes" i) = decodeList (cell values i).
Proof. reflexivity. Qed.

Lemma applyHeader_proofurls values c i :
  proofUrls (applyHeader values c "proofurls" i) = decodeList (cell values i).
Proof. reflexivity. Qed.

Lemma applyHeader_proof_urls values c i :
  proofUrls (applyHeader values c "proof_urls" i) = decodeList (cell values i).
Proof. reflexivity. Qed.


(** The cell of a column the row does not reach is the empty string. *)
Lemma cell_beyond values k : cell values (List.length values + k) = "".
Proof.
  unfold cell.
  replace (nth_error values (List.length values + k)) with (@None string).
  - reflexivity.
  - symmetry. apply nth_error_None. lia.
Qed.

Lemma cell_nth values i : cell values i = nth i values "".
Proof.
  unfold cell. rewrite orElse_empty_default.
  revert i. induction values as [|v vs IH]; intros [|i]; simpl; auto.
Qed.

(** Every cell of a trimmed row is itself unchanged by [trim]. *)
Lemma cell_trimmed (pieces : list string) i :
  trim (cell (map trim pieces) i) = cell (map trim pieces) i.
Proof.
  rewrite cell_nth.
  revert i. induction pieces as [|p ps IH]; intros [|i]; simpl;
    auto using trim_idempotent.
Qed.

Lemma applyHeader_trimmed pieces c h i :
  trim (name c) = name c /\ trim (reason c) = reason c ->
  trim (name (applyHeader (map trim pieces) c h i))
  = name (applyHeader (map trim pieces) c h i)
  /\ trim (reason (applyHeader (map trim pieces) c h i))
    = reason (applyHeader (map trim pieces) c h i).
Proof.
  intros [Hn Hr].
  switch h; auto using cell_trimmed.
  destruct (truthy _); auto.
Qed.

Lemma parseRow_trimmed headers line :
  trim (name (parseRow headers line)) = name (parseRow headers line)
  /\ trim (reason (parseRow headers line)) = reason (parseRow headers line).
Proof.
  unfold parseRow, rowValues.
  apply forEach_invariant with (ok := fun _ => True).
  - intros st x i _. apply applyHeader_trimmed.
  - apply Forall_forall. trivial.
  - split; reflexivity.
Qed.

Lemma admitted_iff c :
  admitted c = true <-> name c <> "" /\ reason c <> "".
Proof.
  unfold admitted. rewrite andb_true_iff, !truthy_true_iff. tauto.
Qed.

Lemma pushIfAdmitted_filter companies c :
  pushIfAdmitted companies c = companies ++ filter admitted [c].
Proof.
  unfold pushIfAdmitted. simpl.
  destruct (admitted c); [reflexivity | now rewrite app_nil_r].
Qed.

Lemma skipn_nth_error {A : Type} (l : list A) i x :
  nth_error l i = Some x -> skipn i l = x :: skipn (S i) l.
Proof.
  revert i. induction l as [|y l IH]; intros [|i] H; simpl in *; try discriminate.
  - congruence.
  - apply IH in H. rewrite H. reflexivity.
Qed.

(** The loop returns what it was given followed by the admitted
    companies of the next [todo] lines. *)
Lemma forRows_spec lines headers :
  forall todo i companies,
    i + todo <= List.length lines ->
    forRows lines headers todo i companies
    = Normal (companies
              ++ filter admitted
                   (map (parseRow headers) (firstn todo (skipn i lines)))).
Proof.
  induction todo as [|todo IH]; intros i companies Hlen; simpl.
  - now rewrite app_nil_r.
  - destruct (nth_error lines i) as [line|] eqn:E.
    + rewrite IH by lia.
      rewrite (skipn_nth_error _ _ _ E).
      rewrite pushIfAdmitted_filter. cbn [firstn map].
      rewrite <- app_assoc. f_equal. f_equal.
      change (parseRow headers line :: map (parseRow headers) (firstn todo (skipn (S i) lines)))
        with ([parseRow headers line] ++ map (parseRow headers) (firstn todo (skipn (S i) lines))).
      now rewrite filter_app.
    + apply nth_error_None in E. lia.
Qed.

Lemma linesOf_cons csvData :
  exists line0 rest, linesOf csvData = line0 :: rest.
Proof. apply split_head. Qed.

(** The value of a call: the admitted companies of the data lines,
    in the order of the lines. *)
Lemma parseCSV_eq csvData :
  parseCSV csvData
  = Normal (filter admitted
              (map (parseRow (headerRow csvData)) (dataLines csvData))).
Proof.
  unfold parseCSV, headerRow, headerLine, dataLines.
  destruct (linesOf_cons csvData) as (line0 & rest & E).
  rewrite E. cbn [nth_error nth skipn List.length].
  rewrite forRows_spec by (simpl; lia).
  cbn [skipn app]. f_equal. f_equal. f_equal.
  replace (S (List.length rest) - 1) with (List.length rest) by lia.
  apply firstn_all.
Qed.

End RowFacts.

(** ** Columns of one row *)

Section ColumnFacts.

Import JS.

(** A row under a header list cut at one column. *)
Lemma parseRow_at_column pre key post line :
  parseRow (pre ++ key :: post) line
  = forEach (applyHeader (rowValues line)) post (S (List.length pre))
      (applyHeader (rowValues line)
         (forEach (applyHeader (rowValues line)) pre 0 emptyCompany)
         key (List.length pre)).
Proof.
  unfold parseRow. cbv zeta. rewrite forEach_app. reflexivity.
Qed.

Lemma notIn_Forall_neq (key : string) (headers : list string) :
  ~ In key headers -> Forall (fun h => h <> key) headers.
Proof.
  intros H. apply Forall_forall. intros h Hin ->. contradiction.
Qed.



Lemma forEach_keeps_barcodes values headers i c :
  ~ In "barcodes" headers ->
  barcodes (forEach (applyHeader values) headers i c) = barcodes c.
Proof.
  intros H.
  apply (forEach_invariant (applyHeader values) (fun h => h <> "barcodes")
           (fun st => barcodes st = barcodes c)); auto using notIn_Forall_neq.
  intros st x k Hx <-. now apply applyHeader_keeps_barcodes.
Qed.

Lemma forEach_keeps_proofUrls values headers i c :
  ~ In "proofurls" headers -> ~ In "proof_urls" headers ->
  proofUrls (forEach (applyHeader values) headers i c) = proofUrls c.
Proof.
  intros H1 H2.
  apply (forEach_invariant (applyHeader values)
           (fun h => h <> "proofurls" /\ h <> "proof_urls")
           (fun st => proofUrls st = proofUrls c)); trivial.
  - intros st x k [Hx1 Hx2] <-. now apply applyHeader_keeps_proofUrls.
  - apply Forall_forall. intros h Hin. split; intros ->; contradiction.
Qed.

Lemma truthy_negb_eqb (s : string) : truthy s = negb (s =? "").
Proof. destruct s; reflexivity. Qed.

Lemma decodeList_unguarded value :
  decodeList value = filter truthy (map trim (split ";" value)).
Proof.
  unfold decodeList. destruct value; reflexivity.
Qed.

Lemma orElse_trim_nth (parts : list string) k :
  orElse (option_map trim (nth_error parts k)) "" = trim (nth k parts "").
Proof.
  rewrite orElse_empty_default.
  destruct (nth_error parts k) as [x|] eqn:E; simpl.
  - now rewrite (nth_error_nth _ _ "" E).
  - rewrite nth_overflow; [reflexivity | now apply nth_error_None].
Qed.

Lemma orElse_trim_nth_default (parts : list string) k d :
  orElse (option_map trim (nth_error parts k)) d
  = if trim (nth k parts "") =? "" then d else trim (nth k parts "").
Proof.
  destruct (nth_error parts k) as [x|] eqn:E; simpl.
  - rewrite (nth_error_nth _ _ "" E), truthy_negb_eqb.
    destruct (trim x =? ""); reflexivity.
  - rewrite nth_overflow; [reflexivity | now apply nth_error_None].
Qed.

Lemma nth_error_firstn_below {A : Type} (l : list A) n k :
  k < n -> nth_error (firstn n l) k = nth_error l k.
Proof.
  revert n k. induction l as [|x l IH]; intros [|n] [|k] H; simpl; trivial;
    try lia.
  apply IH. lia.
Qed.

Lemma decodeAlternative_name_trimmed alt :
  trim (Alternative.name (decodeAlternative alt))
  = Alternative.name (decodeAlternative alt).
Proof.
  unfold decodeAlternative. cbn [Alternative.name].
  rewrite orElse_trim_nth. apply trim_idempotent.
Qed.

End ColumnFacts.

(** ** The loop, by index and by step *)

Section LoopFacts.

Import JS.

Lemma filter_map_commute {A B : Type} (p : B -> bool) (f : A -> B) (l : list A) :
  filter p (map f l) = map f (filter (fun a => p (f a)) l).
Proof.
  induction l as [|a l IH]; simpl; trivial.
  destruct (p (f a)); simpl; now rewrite IH.
Qed.

Lemma suffix_by_index {A : Type} (d : A) (l pre : list A) :
  map (fun i => nth i (pre ++ l) d) (seq (List.length pre) (List.length l)) = l.
Proof.
  revert pre. induction l as [|y l IH]; intros pre; trivial.
  cbn [List.length seq map]. f_equal.
  - rewrite app_nth2, Nat.sub_diag by lia. reflexivity.
  - specialize (IH (pre ++ [y])).
    rewrite <- app_assoc, length_app, Nat.add_1_r in IH. exact IH.
Qed.

Lemma tail_by_index {A : Type} (d x : A) (l : list A) :
  l = map (fun i => nth i (x :: l) d) (seq 1 (List.length l)).
Proof.
  symmetry. exact (suffix_by_index d l [x]).
Qed.

Lemma dataLines_by_index csvData :
  map (parseRow (headerRow csvData)) (dataLines csvData)
  = map (companyAt csvData) (seq 1 (List.length (linesOf csvData) - 1)).
Proof.
  unfold dataLines, companyAt.
  destruct (linesOf_cons csvData) as (line0 & rest & E). rewrite E.
  cbn [skipn List.length].
  replace (S (List.length rest) - 1) with (List.length rest) by lia.
  rewrite (tail_by_index "" line0 rest) at 1.
  now rewrite map_map.
Qed.

(** The value of a call, by loop index. *)
Lemma parseCSV_by_index csvData :
  parseCSV csvData = Normal (map (companyAt csvData) (emittedRows csvData)).
Proof.
  rewrite parseCSV_eq, dataLines_by_index, filter_map_commute.
  reflexivity.
Qed.

Lemma seq_increasing a n : StronglySorted lt (seq a n).
Proof.
  revert a. induction n as [|n IH]; intros a; simpl; constructor.
  - apply IH.
  - apply Forall_forall. intros i Hin. apply in_seq in Hin. lia.
Qed.

Lemma filter_increasing (p : nat -> bool) (l : list nat) :
  StronglySorted lt l -> StronglySorted lt (filter p l).
Proof.
  induction 1 as [|a l Hs IH Ha]; simpl; [constructor|].
  destruct (p a); trivial.
  constructor; trivial.
  apply Forall_forall. intros i Hin. apply filter_In in Hin.
  rewrite Forall_forall in Ha. now apply Ha.
Qed.

Variables lines headers : list string.

Lemma step_deterministic c c1 c2 :
  step lines headers c c1 -> step lines headers c c2 -> c1 = c2.
Proof.
  intros H1 H2.
  inversion H1; subst; inversion H2; subst; trivial; try congruence; lia.
Qed.

Lemma final_is_stuck c c' : final c -> ~ step lines headers c c'.
Proof.
  intros F H. inversion H; subst; exact F.
Qed.

Lemma steps_to_final_unique c f1 f2 :
  steps lines headers c f1 -> final f1 ->
  steps lines headers c f2 -> final f2 ->
  f1 = f2.
Proof.
  intros H1. revert f2.
  induction H1 as [c|c1 c2 c3 Hstep Hrest IH]; intros f2 F1 H2 F2.
  - destruct H2 as [c|c c' f2 Hstep' Hrest']; trivial.
    exfalso. exact (final_is_stuck _ _ F1 Hstep').
  - destruct H2 as [c1|c1 c2' f2 Hstep' Hrest'].
    + exfalso. exact (final_is_stuck _ _ F2 Hstep).
    + rewrite <- (step_deterministic _ _ _ Hstep Hstep') in Hrest'.
      now apply IH.
Qed.

(** The recursive loop follows the steps, whatever it returns. *)
Lemma forRows_steps :
  forall todo i companies,
    i + todo = List.length lines ->
    steps lines headers (Running i companies)
          (configOf (forRows lines headers todo i companies)).
Proof.
  induction todo as [|todo IH]; intros i companies Hlen; simpl.
  - eapply steps_next; [apply step_return; lia | apply steps_done].
  - destruct (nth_error lines i) as [line|] eqn:E.
    + eapply steps_next; [apply step_body; [lia | exact E] |].
      apply IH. lia.
    + eapply steps_next; [apply step_undefined; [lia | exact E] |].
      apply steps_done.
Qed.

End LoopFacts.

Lemma final_configOf r : final (configOf r).
Proof. destruct r; exact I. Qed.

(** The function [parseCSV] describes an execution of the call. *)
Lemma parseCSV_runs csvData : runs csvData (configOf (parseCSV csvData)).
Proof.
  unfold parseCSV.
  destruct (nth_error (linesOf csvData) 0) as [line0|] eqn:E.
  - apply runs_loop with line0; trivial; [|apply final_configOf].
    apply forRows_steps.
    destruct (linesOf csvData); [discriminate | simpl; lia].
  - now apply runs_no_header.
Qed.

(** A call has one outcome only. *)
Lemma runs_functional csvData c1 c2 :
  runs csvData c1 -> runs csvData c2 -> c1 = c2.
Proof.
  intros [N1 ->|line1 E1 S1 F1] [N2 ->|line2 E2 S2 F2];
    trivial; try congruence.
  assert (line1 = line2) by congruence. subst line2.
  eapply steps_to_final_unique; eauto.
Qed.

(** ** The loop on the store *)

Section StoreFacts.

Lemma store_length a o (h : OnHeap.heap) : List.length (OnHeap.store a o h) = List.length h.
Proof.
  revert a. induction h as [|x h IH]; intros [|a]; simpl; auto.
Qed.

Lemma store_same a o (h : OnHeap.heap) :
  a < List.length h -> nth_error (OnHeap.store a o h) a = Some o.
Proof.
  revert a. induction h as [|x h IH]; intros [|a] H; simpl in *;
    try lia; trivial.
  apply IH. lia.
Qed.

Lemma store_other a k o (h : OnHeap.heap) :
  k <> a -> nth_error (OnHeap.store a o h) k = nth_error h k.
Proof.
  revert a k. induction h as [|x h IH]; intros [|a] [|k] H; simpl;
    trivial; try congruence.
  apply IH. congruence.
Qed.

Lemma store_twice a o o' (h : OnHeap.heap) : OnHeap.store a o (OnHeap.store a o' h) = OnHeap.store a o h.
Proof.
  revert a. induction h as [|x h IH]; intros [|a]; simpl; trivial.
  now rewrite IH.
Qed.

Lemma store_unchanged a o (h : OnHeap.heap) : nth_error h a = Some o -> OnHeap.store a o h = h.
Proof.
  revert a. induction h as [|x h IH]; intros [|a] H; simpl in *; trivial.
  - congruence.
  - now rewrite IH.
Qed.

Lemma nth_error_defined {A : Type} (l : list A) k x :
  nth_error l k = Some x -> k < List.length l.
Proof.
  intros H. apply nth_error_Some. congruence.
Qed.

(** The whole [forEach] amounts to one update of the object. *)
Lemma forEach_assign values company headers :
  forall i (h : OnHeap.heap) fields,
    nth_error h company = Some (OnHeap.CompanyObject fields) ->
    JS.forEach (OnHeap.assign values company) headers i h
    = OnHeap.store company
        (OnHeap.CompanyObject (JS.forEach (applyHeader values) headers i fields)) h.
Proof.
  induction headers as [|header headers IH]; intros i h fields H; simpl.
  - symmetry. now apply store_unchanged.
  - unfold OnHeap.assign at 2. rewrite H.
    rewrite (IH _ _ (applyHeader values fields header i)).
    + apply store_twice.
    + apply store_same. eapply nth_error_defined, H.
Qed.

Lemma collect_same (h h' : OnHeap.heap) items :
  (forall item, In item items -> nth_error h' item = nth_error h item) ->
  OnHeap.collect h' items = OnHeap.collect h items.
Proof.
  induction items as [|item items IH]; intros H; simpl; trivial.
  unfold OnHeap.fieldsAt. rewrite (H item) by now left.
  rewrite IH; trivial. intros k Hk. apply H. now right.
Qed.

Lemma collect_snoc (h : OnHeap.heap) items item pushed fields :
  OnHeap.collect h items = Some pushed ->
  OnHeap.fieldsAt h item = Some fields ->
  OnHeap.collect h (items ++ [item]) = Some (pushed ++ [fields]).
Proof.
  revert pushed. induction items as [|x items IH]; intros pushed H F; simpl in *.
  - injection H as <-. now rewrite F.
  - destruct (OnHeap.fieldsAt h x) as [fx|]; [|discriminate].
    destruct (OnHeap.collect h items) as [others|]; [|discriminate].
    injection H as <-. now rewrite (IH others eq_refl F).
Qed.

(** One turn of the loop: one more object in the store, nothing
    allocated earlier touched but the array, and the array extended
    exactly as [pushIfAdmitted] says. *)
Lemma body_holds headers line companies (h : OnHeap.heap) items pushed :
  OnHeap.holds h companies items pushed ->
  List.length (OnHeap.body headers line companies h) = S (List.length h)
  /\ (forall k, k < List.length h -> k <> companies ->
                nth_error (OnHeap.body headers line companies h) k = nth_error h k)
  /\ exists items',
        OnHeap.holds (OnHeap.body headers line companies h) companies items'
              (pushIfAdmitted pushed (parseRow headers line)).
Proof.
  intros (Harr & Hitems & Hcollect).
  pose proof (nth_error_defined _ _ _ Harr) as Hlt.
  unfold OnHeap.body, OnHeap.allocate. cbv zeta.
  set (company := List.length h).
  set (h1 := h ++ [OnHeap.CompanyObject emptyCompany]).
  assert (H1 : nth_error h1 company = Some (OnHeap.CompanyObject emptyCompany)).
  { unfold h1, company. rewrite nth_error_app2, Nat.sub_diag by lia.
    reflexivity. }
  assert (L1 : List.length h1 = S (List.length h)).
  { unfold h1. rewrite length_app. simpl. lia. }
  assert (O1 : forall k, k < List.length h -> nth_error h1 k = nth_error h k).
  { intros k Hk. unfold h1. now rewrite nth_error_app1. }
  rewrite (forEach_assign _ _ _ _ _ _ H1).
  fold (parseRow headers line).
  set (fields := parseRow headers line).
  set (h2 := OnHeap.store company (OnHeap.CompanyObject fields) h1).
  assert (H2 : nth_error h2 company = Some (OnHeap.CompanyObject fields)).
  { apply store_same. eapply nth_error_defined, H1. }
  assert (L2 : List.length h2 = S (List.length h)).
  { unfold h2. now rewrite store_length. }
  assert (O2 : forall k, k < List.length h -> nth_error h2 k = nth_error h k).
  { intros k Hk. unfold h2. rewrite store_other by (unfold company; lia).
    now apply O1. }
  assert (C2 : OnHeap.collect h2 items = Some pushed).
  { rewrite <- Hcollect. apply collect_same. intros item Hin.
    apply O2. rewrite Forall_forall in Hitems. apply Hitems in Hin. lia. }
  rewrite H2. unfold pushIfAdmitted.
  destruct (admitted fields).
  - unfold OnHeap.push. rewrite (O2 _ Hlt), Harr.
    set (h3 := OnHeap.store companies (OnHeap.ArrayObject (items ++ [company])) h2).
    assert (O3 : forall k, k <> companies -> nth_error h3 k = nth_error h2 k).
    { intros k Hk. unfold h3. now apply store_other. }
    split; [unfold h3; now rewrite store_length|]. split.
    + intros k Hk Hne. rewrite O3 by assumption. now apply O2.
    + exists (items ++ [company]). split; [|split].
      * unfold h3. apply store_same. lia.
      * unfold h3. rewrite store_length, L2. apply Forall_app. split.
        -- eapply Forall_impl; [|exact Hitems]. simpl. intros; lia.
        -- repeat constructor; unfold company; lia.
      * apply collect_snoc.
        -- rewrite <- C2. apply collect_same. intros item Hin.
           apply O3. rewrite Forall_forall in Hitems.
           apply Hitems in Hin. lia.
        -- unfold OnHeap.fieldsAt. rewrite O3 by (unfold company; lia).
           now rewrite H2.
  - split; [exact L2|]. split.
    + intros k Hk _. now apply O2.
    + exists items. split; [|split]; trivial.
      * now rewrite (O2 _ Hlt).
      * rewrite L2. eapply Forall_impl; [|exact Hitems]. simpl. intros; lia.
Qed.

(** The loop on the store follows the loop on values. *)
Lemma forRows_holds lines headers companies :
  forall todo i (h : OnHeap.heap) items pushed,
    OnHeap.holds h companies items pushed ->
    match forRows lines headers todo i pushed with
    | JS.Normal result =>
        exists h' items',
          OnHeap.forRows lines headers todo i companies h = JS.Normal h'
          /\ List.length h <= List.length h'
          /\ (forall k, k < List.length h -> k <> companies ->
                        nth_error h' k = nth_error h k)
          /\ OnHeap.holds h' companies items' result
    | JS.TypeError =>
        OnHeap.forRows lines headers todo i companies h = JS.TypeError
    end.
Proof.
  induction todo as [|todo IH]; intros i h items pushed Hh; simpl.
  - exists h, items.
    split; [reflexivity|]. split; [lia|]. split; [trivial | exact Hh].
  - destruct (nth_error lines i) as [line|]; trivial.
    destruct (body_holds headers line companies h items pushed Hh)
      as (L & O & items1 & H1).
    specialize (IH (S i) _ _ _ H1).
    destruct (forRows lines headers todo (S i)
                (pushIfAdmitted pushed (parseRow headers line)))
      as [result|]; trivial.
    destruct IH as (h' & items' & E & L' & O' & H').
    exists h', items'.
    split; [exact E|]. split; [lia|]. split; [|exact H'].
    intros k Hk Hne. rewrite O' by lia. now apply O.
Qed.

(** A call on the store: it returns a new array, leaves every object
    that was there as it was, and the array reads as the value of
    [parseCSV]. *)
Lemma parseCSV_on_heap csvData (h : OnHeap.heap) :
  exists companies h' items,
    parseCSV csvData = JS.Normal companies
    /\ OnHeap.parseCSV csvData h = JS.Normal (List.length h, h')
    /\ List.length h < List.length h'
    /\ (forall k, k < List.length h -> nth_error h' k = nth_error h k)
    /\ OnHeap.holds h' (List.length h) items companies.
Proof.
  unfold parseCSV, OnHeap.parseCSV. cbv zeta.
  destruct (linesOf_cons csvData) as (line0 & rest & E). rewrite E.
  cbn [nth_error]. unfold OnHeap.allocate.
  set (h1 := h ++ [OnHeap.ArrayObject []]).
  assert (H1 : OnHeap.holds h1 (List.length h) [] []).
  { split; [|split]; [|constructor|reflexivity].
    unfold h1. rewrite nth_error_app2, Nat.sub_diag by lia. reflexivity. }
  pose proof (forRows_holds (line0 :: rest) (headersOf line0) (List.length h)
                (List.length (line0 :: rest) - 1) 1 h1 [] [] H1) as F.
  rewrite forRows_spec in F by (simpl; lia).
  rewrite forRows_spec by (simpl; lia).
  destruct F as (h' & items' & R & L & O & H').
  rewrite R. eexists _, h', items'.
  split; [reflexivity|]. split; [reflexivity|].
  assert (L1 : List.length h1 = S (List.length h)).
  { unfold h1. rewrite length_app. simpl. lia. }
  split; [lia|]. split; [|exact H'].
  intros k Hk. rewrite O by lia. unfold h1. now rewrite nth_error_app1.
Qed.

Lemma contents_same (h h' : OnHeap.heap) companies items pushed :
  OnHeap.holds h companies items pushed ->
  (forall k, k < List.length h -> nth_error h' k = nth_error h k) ->
  OnHeap.contents h' companies = Some pushed.
Proof.
  intros (Harr & Hitems & Hcollect) O.
  unfold OnHeap.contents. rewrite O by (eapply nth_error_defined, Harr).
  rewrite Harr, <- Hcollect. apply collect_same. intros item Hin.
  apply O. rewrite Forall_forall in Hitems. apply Hitems in Hin. lia.
Qed.

End StoreFacts.

(** ** The import contract *)

(** C1 (as the code has it): on the text made of the header line
    [name,boycott,reason,country,alternatives,barcodes,proofurls] and
    the single quoted sample row, the call returns exactly one record
    with name "Sample Co", boycott true, country "IN", one barcode and
    one proof URL; its single alternative has country code "IN", but
    its name and description still carry the quotation marks of the
    field: the name is the quotation mark followed by "Alt A", the
    description is "desc" followed by the quotation mark. *)
Theorem parseCSV_sample_row_keeps_quotes :
  parseCSV (sampleHeader ++ nl ++ sampleRow)
  = JS.Normal
      [ {| name := "Sample Co";
           boycott := true;
           reason := "Environmental concerns";
           alternatives :=
             [ {| Alternative.name := dquote ++ "Alt A";
                  Alternative.countryCode := "IN";
                  Alternative.description := "desc" ++ dquote |} ];
           barcodes := ["111111111111"];
           proofUrls := ["https://x.test/a"];
           country := "IN" |} ].
Proof. vm_compute. reflexivity. Qed.

(** The template handed out by [downloadSampleCSV] meets the same fate:
    the first and the last alternative of each row keep a quotation
    mark. *)
Example sampleData_alternative_names :
  match parseCSV sampleData with
  | JS.Normal companies =>
      map (fun c => map Alternative.name (alternatives c)) companies
      = [ [(dquote ++ "Dr Pepper")%string; "RC Cola"];
          [(dquote ++ "Local Brand")%string] ]
  | JS.TypeError => False
  end.
Proof. vm_compute. reflexivity. Qed.

(** C2: a call returns, in order, the companies of exactly those data
    lines whose decoded name and reason are both non-empty after
    trimming; the other lines add nothing and raise nothing, and every
    returned record has a non-empty name and a non-empty reason. *)
Theorem parseCSV_admission_filter (csvData : string) :
  exists companies,
    parseCSV csvData = JS.Normal companies
    /\ companies
       = filter admitted (map (parseRow (headerRow csvData)) (dataLines csvData))
    /\ (forall line,
          admitted (parseRow (headerRow csvData) line) = true
          <-> JS.trim (name (parseRow (headerRow csvData) line)) <> ""
              /\ JS.trim (reason (parseRow (headerRow csvData) line)) <> "")
    /\ Forall (fun c => name c <> "" /\ reason c <> "") companies.
Proof.
  eexists. split; [apply parseCSV_eq|]. split; [reflexivity|]. split.
  - intros line.
    destruct (parseRow_trimmed (headerRow csvData) line) as [-> ->].
    apply admitted_iff.
  - apply Forall_forall. intros c Hin.
    apply filter_In in Hin. now apply admitted_iff.
Qed.



(** C4: the empty text, a header followed by a line break only, and
    any text with fewer than two lines once trimmed, give the empty
    sequence as a normal result. *)
Theorem parseCSV_degenerate_input :
  parseCSV "" = JS.Normal []
  /\ parseCSV headerOnly = JS.Normal []
  /\ (forall csvData,
        List.length (linesOf csvData) < 2 -> parseCSV csvData = JS.Normal []).
Proof.
  repeat split.
  intros csvData Hlen.
  rewrite parseCSV_eq. unfold dataLines.
  destruct (linesOf csvData) as [|line0 [|line1 rest]]; simpl in *;
    trivial; lia.
Qed.

Lemma parseCSV_degenerate_input_witness :
  List.length (linesOf headerOnly) < 2
  /\ parseCSV headerOnly = JS.Normal [].
Proof.
  assert (H : List.length (linesOf headerOnly) < 2).
  { vm_compute. lia. }
  split; [exact H|].
  exact (proj2 (proj2 parseCSV_degenerate_input) headerOnly H).
Defined.

(** C5: a barcodes cell, and likewise a proofurls or proof_urls cell,
    decodes to its pieces between semicolons, each trimmed, the empty
    ones dropped; "111;222; 333 " gives ["111"; "222"; "333"], and a
    semicolon at the end adds no element. *)
Theorem multi_value_decoding :
  (forall value,
      decodeList value = filter JS.truthy (map JS.trim (JS.split ";" value)))
  /\ decodeList "111;222; 333 " = ["111"; "222"; "333"]
  /\ (forall value, decodeList (value ++ ";") = decodeList value)
  /\ (forall values company index,
        barcodes (applyHeader values company "barcodes" index)
        = decodeList (cell values index)
        /\ proofUrls (applyHeader values company "proofurls" index)
          = decodeList (cell values index)
        /\ proofUrls (applyHeader values company "proof_urls" index)
          = decodeList (cell values index))
  /\ (forall pre post line,
        ~ In "barcodes" post ->
        barcodes (parseRow (pre ++ "barcodes" :: post) line)
        = decodeList (cell (rowValues line) (List.length pre)))
  /\ (forall pre post line,
        ~ In "proofurls" post -> ~ In "proof_urls" post ->
        proofUrls (parseRow (pre ++ "proofurls" :: post) line)
        = decodeList (cell (rowValues line) (List.length pre))
        /\ proofUrls (parseRow (pre ++ "proof_urls" :: post) line)
          = decodeList (cell (rowValues line) (List.length pre))).
Proof.
  split; [exact decodeList_unguarded|].
  split; [reflexivity|].
  split.
  { intros value. rewrite !decodeList_unguarded, split_trailing_sep.
    rewrite map_app, filter_app. simpl. apply app_nil_r. }
  split; [intros; repeat split|].
  split.
  - intros pre post line Hpost.
    rewrite parseRow_at_column, forEach_keeps_barcodes by assumption.
    apply applyHeader_barcodes.
  - intros pre post line H1 H2.
    rewrite !parseRow_at_column, !forEach_keeps_proofUrls by assumption.
    split; [apply applyHeader_proofurls | apply applyHeader_proof_urls].
Qed.

Lemma multi_value_decoding_witness :
  ~ In "barcodes" ["proofurls"]
  /\ barcodes (parseRow (["name"] ++ "barcodes" :: ["proofurls"]) "Acme,111;222; 333 ,u")
     = ["111"; "222"; "333"].
Proof.
  assert (H : ~ In "barcodes" ["proofurls"]).
  { simpl. intros [E|[]]. discriminate E. }
  split; [exact H|].
  exact (proj1 (proj2 (proj2 (proj2 (proj2 multi_value_decoding))))
           ["name"] ["proofurls"] "Acme,111;222; 333 ,u" H).
Defined.



(** C10: the triple decoded from one alternatives piece has as name
    the first colon-part trimmed, as country code the second part
    trimmed, or "GLOBAL" when that part is absent or trims to nothing,
    and as description the third part trimmed, or the empty string when
    absent; parts after the third play no role; a piece without colon
    such as "Alt C" gives name "Alt C", country code "GLOBAL" and an
    empty description. *)
Theorem decodeAlternative_parts :
  (forall alt,
      Alternative.name (decodeAlternative alt)
      = JS.trim (nth 0 (JS.split ":" (JS.trim alt)) "")
      /\ Alternative.countryCode (decodeAlternative alt)
        = (if JS.trim (nth 1 (JS.split ":" (JS.trim alt)) "") =? ""
           then "GLOBAL"
           else JS.trim (nth 1 (JS.split ":" (JS.trim alt)) ""))
      /\ Alternative.description (decodeAlternative alt)
        = JS.trim (nth 2 (JS.split ":" (JS.trim alt)) ""))
  /\ (forall alt,
        nth_error (JS.split ":" (JS.trim alt)) 1 = None ->
        Alternative.countryCode (decodeAlternative alt) = "GLOBAL")
  /\ (forall alt alt',
        firstn 3 (JS.split ":" (JS.trim alt))
        = firstn 3 (JS.split ":" (JS.trim alt')) ->
        decodeAlternative alt = decodeAlternative alt')
  /\ decodeAlternative "Alt C"
     = {| Alternative.name := "Alt C";
          Alternative.countryCode := "GLOBAL";
          Alternative.description := "" |}.
Proof.
  split.
  { intros alt. unfold decodeAlternative.
    cbn [Alternative.name Alternative.countryCode Alternative.description].
    rewrite !orElse_trim_nth, orElse_trim_nth_default. auto. }
  split.
  { intros alt H. unfold decodeAlternative. cbn [Alternative.countryCode].
    rewrite H. reflexivity. }
  split; [|reflexivity].
  intros alt alt' H. unfold decodeAlternative.
  rewrite <- (nth_error_firstn_below (JS.split ":" (JS.trim alt)) 3 0),
          <- (nth_error_firstn_below (JS.split ":" (JS.trim alt)) 3 1),
          <- (nth_error_firstn_below (JS.split ":" (JS.trim alt)) 3 2) by lia.
  rewrite H.
  rewrite !nth_error_firstn_below by lia. reflexivity.
Qed.

Lemma decodeAlternative_parts_witness :
  firstn 3 (JS.split ":" (JS.trim "Alt D:PK:local:more:and more"))
  = firstn 3 (JS.split ":" (JS.trim "Alt D:PK:local"))
  /\ decodeAlternative "Alt D:PK:local:more:and more"
     = decodeAlternative "Alt D:PK:local".
Proof.
  assert (H : firstn 3 (JS.split ":" (JS.trim "Alt D:PK:local:more:and more"))
              = firstn 3 (JS.split ":" (JS.trim "Alt D:PK:local")))
    by reflexivity.
  split; [exact H|].
  exact (proj1 (proj2 (proj2 decodeAlternative_parts))
           "Alt D:PK:local:more:and more" "Alt D:PK:local" H).
Defined.

(** C7, counterexample: the returned records carry no row number.
    Two data rows with the same content give two equal records, so
    nothing read off a record can tell line 1 from line 2; and once a
    row has been dropped, the position of a record in the result is
    not its line either. *)
Lemma row_numbers_not_carried :
  (~ exists rowOf : CompanyFormData -> nat, carriesRowNumbers rowOf twinRows)
  /\ parseCSV twinRows = JS.Normal [acme; acme]
  /\ emittedRows twinRows = [1; 2]
  /\ parseCSV gapRows = JS.Normal [acme]
  /\ emittedRows gapRows = [2].
Proof.
  assert (P : parseCSV twinRows = JS.Normal [acme; acme])
    by (vm_compute; reflexivity).
  assert (R : emittedRows twinRows = [1; 2]) by (vm_compute; reflexivity).
  split; [|repeat split; trivial].
  intros [rowOf H]. specialize (H _ P). rewrite R in H.
  simpl in H. congruence.
Qed.

(** C7, amended: the records a call returns are the companies built at
    the loop indices where the admission test succeeds, in increasing
    order of these indices, each index being the number of a data line
    of the text (from 1, the header being line 0); the records
    themselves hold no row number. *)
Theorem parseCSV_keeps_row_order (csvData : string) :
  parseCSV csvData = JS.Normal (map (companyAt csvData) (emittedRows csvData))
  /\ StronglySorted lt (emittedRows csvData)
  /\ Forall (fun i => 1 <= i < List.length (linesOf csvData)
                     /\ admitted (companyAt csvData i) = true)
            (emittedRows csvData).
Proof.
  split; [apply parseCSV_by_index|]. split.
  - apply filter_increasing, seq_increasing.
  - apply Forall_forall. intros i Hin.
    apply filter_In in Hin. destruct Hin as [Hseq Hadm].
    apply in_seq in Hseq. split; [lia | exact Hadm].
Qed.

(** C8: two calls of [parseCSV] on the same text return structurally
    equal sequences, and no state enters or is left behind: whatever
    the store holds before, a call returns a new array whose records
    are the value of [parseCSV] on the text; a second call on the same
    text, made on the store the first one left, returns another new
    array with the same records; the first result still reads the same
    afterwards, and no object that existed before the calls is
    changed. *)
Theorem parseCSV_calls_share_no_state (csvData : string) (h : OnHeap.heap) :
  exists companies first h1 second h2,
    parseCSV csvData = JS.Normal companies
    /\ OnHeap.parseCSV csvData h = JS.Normal (first, h1)
    /\ OnHeap.parseCSV csvData h1 = JS.Normal (second, h2)
    /\ first <> second
    /\ OnHeap.contents h1 first = Some companies
    /\ OnHeap.contents h2 second = Some companies
    /\ OnHeap.contents h2 first = Some companies
    /\ (forall k, k < List.length h -> nth_error h2 k = nth_error h k).
Proof.
  destruct (parseCSV_on_heap csvData h)
    as (companies & h1 & items1 & P & R1 & L1 & O1 & H1).
  destruct (parseCSV_on_heap csvData h1)
    as (companies' & h2 & items2 & P' & R2 & L2 & O2 & H2).
  assert (companies' = companies) by congruence. subst companies'.
  exists companies, (List.length h), h1, (List.length h1), h2.
  repeat split; trivial.
  - lia.
  - apply (contents_same h1 h1 _ items1); trivial.
  - apply (contents_same h2 h2 _ items2); trivial.
  - apply (contents_same h1 h2 _ items1); trivial.
  - intros k Hk. rewrite O2 by lia. now apply O1.
Qed.

(** C9: a call returns normally on every text and no execution of it
    throws; a column the row does not reach is read as the empty
    string, so a short row is decoded with its missing fields empty,
    and a row without name or reason is left out. *)
Theorem parseCSV_never_throws :
  (forall csvData,
      exists companies,
        parseCSV csvData = JS.Normal companies
        /\ runs csvData (Returned companies))
  /\ (forall csvData, ~ runs csvData Threw)
  /\ (forall values k, cell values (List.length values + k) = "")
  /\ parseCSV shortRow = JS.Normal [acme]
  /\ parseCSV gapRows = JS.Normal [acme].
Proof.
  assert (T : forall csvData,
             exists companies,
               parseCSV csvData = JS.Normal companies
               /\ runs csvData (Returned companies)).
  { intros csvData. eexists. split; [apply parseCSV_eq|].
    pose proof (parseCSV_runs csvData) as R.
    rewrite parseCSV_eq in R. exact R. }
  split; [exact T|]. split.
  - intros csvData R.
    destruct (T csvData) as (companies & _ & R').
    pose proof (runs_functional _ _ _ R R'). discriminate.
  - split; [exact cell_beyond|]. split; vm_compute; reflexivity.
Qed.

(** ** White space around the text and at line ends *)

Section PaddingFacts.

Import JS.

Lemma blank_trimStart (s : string) : trim s = "" <-> trimStart s = "".
Proof.
  unfold trim. split; intros H.
  - pose proof (trimStart_cleanStart s) as C.
    destruct (trimStart s) as [|c rest]; trivial.
    simpl in C. rewrite trimEnd_cons_clean in H by assumption. discriminate.
  - now rewrite H.
Qed.

Lemma trimStart_app_blank (pad t : string) :
  trimStart pad = "" -> trimStart (pad ++ t) = trimStart t.
Proof.
  induction pad as [|c rest IH]; simpl; trivial.
  destruct (isWhiteSpace c); [exact IH | discriminate].
Qed.

Lemma trimEnd_blank (pad : string) : trimStart pad = "" -> trimEnd pad = "".
Proof.
  induction pad as [|c rest IH]; simpl; trivial.
  destruct (isWhiteSpace c) eqn:W; [|discriminate].
  intros H. rewrite (IH H). reflexivity.
Qed.

Lemma trimEnd_app_blank (t pad : string) :
  trimStart pad = "" -> trimEnd (t ++ pad) = trimEnd t.
Proof.
  intros H. induction t as [|c rest IH]; simpl.
  - now apply trimEnd_blank.
  - now rewrite IH.
Qed.

Lemma trim_app_blank_r (t pad : string) :
  trim pad = "" -> trim (t ++ pad) = trim t.
Proof.
  rewrite blank_trimStart. intros H. unfold trim.
  induction t as [|c rest IH]; simpl.
  - now rewrite H.
  - destruct (isWhiteSpace c); [exact IH|].
    exact (trimEnd_app_blank (String c rest) pad H).
Qed.

Lemma trim_app_blank_l (pad t : string) :
  trim pad = "" -> trim (pad ++ t) = trim t.
Proof.
  rewrite blank_trimStart. intros H. unfold trim.
  now rewrite trimStart_app_blank.
Qed.

End PaddingFacts.

(** X1: white space and blank lines before and after the text play no
    role: a text padded on both sides with strings that [trim] erases
    is parsed like the text itself. *)
Theorem parseCSV_ignores_padding (before after csvData : string) :
  JS.trim before = "" -> JS.trim after = "" ->
  parseCSV (before ++ csvData ++ after) = parseCSV csvData.
Proof.
  intros Hb Ha. unfold parseCSV, linesOf.
  now rewrite trim_app_blank_l, trim_app_blank_r.
Qed.

Lemma parseCSV_ignores_padding_witness :
  JS.trim (nl ++ "  ") = "" /\ JS.trim (" " ++ nl ++ nl) = ""
  /\ parseCSV ((nl ++ "  ") ++ twinRows ++ (" " ++ nl ++ nl)) = parseCSV twinRows.
Proof.
  assert (Hb : JS.trim (nl ++ "  ") = "") by reflexivity.
  assert (Ha : JS.trim (" " ++ nl ++ nl) = "") by reflexivity.
  split; [exact Hb|]. split; [exact Ha|].
  exact (parseCSV_ignores_padding _ _ twinRows Hb Ha).
Defined.

Section LineEndFacts.

Import JS.

Lemma crlf_trimStart (s : string) : trimStart (crlf s) = crlf (trimStart s).
Proof.
  induction s as [|c rest IH]; trivial.
  simpl crlf at 1. simpl trimStart at 2.
  destruct (Ascii.eqb_spec c LF) as [->|N].
  - exact IH.
  - simpl. destruct (isWhiteSpace c); trivial.
    simpl. destruct (Ascii.eqb_spec c LF); [contradiction | reflexivity].
Qed.

Lemma crlf_empty (s : string) : crlf s = "" -> s = "".
Proof.
  destruct s as [|c rest]; trivial.
  simpl. destruct (Ascii.eqb c LF); discriminate.
Qed.

Lemma crlf_trimEnd (s : string) : trimEnd (crlf s) = crlf (trimEnd s).
Proof.
  induction s as [|c rest IH]; trivial.
  destruct (string_dec (trimEnd rest) "") as [E|E].
  - assert (E' : trimEnd (crlf rest) = "") by now rewrite IH, E.
    simpl. rewrite E.
    destruct (Ascii.eqb_spec c LF) as [->|N].
    + simpl. rewrite E'. reflexivity.
    + simpl. rewrite E'. destruct (isWhiteSpace c); trivial.
      simpl. destruct (Ascii.eqb_spec c LF); [contradiction | reflexivity].
  - assert (E' : trimEnd (crlf rest) <> "").
    { rewrite IH. intros H. now apply crlf_empty in H. }
    rewrite (trimEnd_cons_kept c rest E). simpl crlf.
    destruct (Ascii.eqb c LF).
    + assert (E2 : trimEnd (String LF (crlf rest)) <> "")
        by (rewrite trimEnd_cons_kept by exact E'; discriminate).
      rewrite (trimEnd_cons_kept _ _ E2), (trimEnd_cons_kept _ _ E'), IH.
      reflexivity.
    + rewrite (trimEnd_cons_kept _ _ E'), IH. reflexivity.
Qed.

Lemma crlf_trim (s : string) : trim (crlf s) = crlf (trim s).
Proof.
  unfold trim. now rewrite crlf_trimStart, crlf_trimEnd.
Qed.

Lemma upToCR_cons (c : ascii) (p p' : string) :
  upToCR p p' -> upToCR (String c p) (String c p').
Proof.
  intros [->| ->]; [left | right]; reflexivity.
Qed.

Lemma split_crlf (s : string) :
  Forall2 upToCR (split LF s) (split LF (crlf s)).
Proof.
  induction s as [|c rest IH]; simpl.
  - repeat constructor.
  - destruct (Ascii.eqb_spec c LF) as [->|N].
    + simpl. constructor; [right; reflexivity | exact IH].
    + simpl. destruct (Ascii.eqb_spec c LF); [contradiction|].
      destruct IH as [|p p' ps ps' Hp Hps]; constructor; trivial.
      * left; reflexivity.
      * now apply upToCR_cons.
Qed.

Lemma split_app_CR (sep : ascii) (s : string) :
  sep <> "013"%char ->
  Forall2 upToCR (split sep s) (split sep (s ++ CR)).
Proof.
  intros N. induction s as [|c rest IH]; cbn -[Ascii.eqb].
  - destruct (Ascii.eqb_spec "013"%char sep); [congruence|].
    constructor; [right; reflexivity | constructor].
  - destruct (Ascii.eqb c sep).
    + constructor; [left; reflexivity | exact IH].
    + destruct IH as [|p p' ps ps' Hp Hps]; constructor; trivial.
      * left; reflexivity.
      * now apply upToCR_cons.
Qed.

Lemma upToCR_same_trim (l1 l2 : list string) :
  Forall2 upToCR l1 l2 ->
  Forall2 (fun p p' => trim p' = trim p) l1 l2.
Proof.
  induction 1 as [|p p' ps ps' Hp Hps IH]; constructor; trivial.
  destruct Hp as [->| ->]; trivial.
  now apply trim_app_blank_r.
Qed.

Lemma Forall2_map_eq {A B : Type} (f : A -> B) (l l' : list A) :
  Forall2 (fun x y => f y = f x) l l' -> map f l' = map f l.
Proof.
  induction 1; simpl; congruence.
Qed.

Lemma Forall2_impl {A : Type} (R R' : A -> A -> Prop) (l l' : list A) :
  (forall x y, R x y -> R' x y) -> Forall2 R l l' -> Forall2 R' l l'.
Proof.
  intros H. induction 1; constructor; auto.
Qed.

(** Cells and header names of a line do not see a carriage return at
    its end. *)
Lemma rowValues_upToCR (line line' : string) :
  upToCR line line' -> rowValues line' = rowValues line.
Proof.
  intros [->| ->]; trivial.
  unfold rowValues. apply Forall2_map_eq.
  apply upToCR_same_trim, split_app_CR. discriminate.
Qed.

Lemma headersOf_upToCR (line line' : string) :
  upToCR line line' -> headersOf line' = headersOf line.
Proof.
  intros [->| ->]; trivial.
  unfold headersOf. apply Forall2_map_eq.
  eapply Forall2_impl;
    [| apply upToCR_same_trim, (split_app_CR ","); discriminate].
  simpl. intros x y ->. reflexivity.
Qed.

Lemma parseRow_upToCR (headers : list string) (line line' : string) :
  upToCR line line' -> parseRow headers line' = parseRow headers line.
Proof.
  intros H. unfold parseRow. cbv zeta. now rewrite (rowValues_upToCR _ _ H).
Qed.

End LineEndFacts.

(** X2: Windows line ends change nothing: the text with CR LF in place
    of every LF is parsed like the text itself. *)
Theorem parseCSV_ignores_carriage_returns (csvData : string) :
  parseCSV (crlf csvData) = parseCSV csvData.
Proof.
  rewrite !parseCSV_eq. unfold headerRow, headerLine, dataLines, linesOf.
  rewrite crlf_trim.
  pose proof (split_crlf (JS.trim csvData)) as H.
  destruct H as [|line0 line0' rest rest' H0 Hrest]; trivial.
  cbn [nth skipn].
  rewrite (headersOf_upToCR _ _ H0).
  do 2 f_equal. apply Forall2_map_eq.
  eapply Forall2_impl; [|exact Hrest].
  intros x y. apply parseRow_upToCR.
Qed.

(** ** Name, reason and country of a row *)

Section FieldFacts.

Import JS.

Lemma applyHeader_keeps_name values c h i :
  h <> "name" -> name (applyHeader values c h i) = name c.
Proof.
  intros N. switch h; try reflexivity; try congruence.
  destruct (truthy _); reflexivity.
Qed.

Lemma applyHeader_keeps_reason values c h i :
  h <> "reason" -> reason (applyHeader values c h i) = reason c.
Proof.
  intros N. switch h; try reflexivity; try congruence.
  destruct (truthy _); reflexivity.
Qed.

Lemma applyHeader_keeps_country values c h i :
  h <> "country" -> country (applyHeader values c h i) = country c.
Proof.
  intros N. switch h; try reflexivity; try congruence.
  destruct (truthy _); reflexivity.
Qed.

(** A field that no header of the list touches keeps its value. *)
Lemma forEach_keeps {X : Type} (proj : CompanyFormData -> X) (key : string)
      values :
  (forall c h i, h <> key -> proj (applyHeader values c h i) = proj c) ->
  forall headers i c,
    ~ In key headers ->
    proj (forEach (applyHeader values) headers i c) = proj c.
Proof.
  intros Hkeep headers i c Hnot.
  apply (forEach_invariant (applyHeader values) (fun h => h <> key)
           (fun st => proj st = proj c)); auto using notIn_Forall_neq.
  intros st x k Hx <-. now apply Hkeep.
Qed.

Lemma orElse_not_empty (v : option string) (d : string) :
  d <> "" -> orElse v d <> "".
Proof.
  intros Hd. destruct v as [[|c rest]|]; simpl; trivial. discriminate.
Qed.

Lemma applyHeader_country_not_empty values c h i :
  country c <> "" -> country (applyHeader values c h i) <> "".
Proof.
  intros Hc. switch h; trivial.
  - apply orElse_not_empty. discriminate.
  - destruct (truthy _); trivial.
Qed.

Lemma parseRow_country_not_empty headers line :
  country (parseRow headers line) <> "".
Proof.
  unfold parseRow. cbv zeta.
  apply forEach_invariant with (ok := fun _ => True).
  - intros st x i _. apply applyHeader_country_not_empty.
  - apply Forall_forall. trivial.
  - discriminate.
Qed.

Lemma parseRow_without_name headers line :
  ~ In "name" headers -> name (parseRow headers line) = "".
Proof.
  intros H. unfold parseRow. cbv zeta.
  rewrite (forEach_keeps name "name"); auto using applyHeader_keeps_name.
Qed.

Lemma parseRow_without_reason headers line :
  ~ In "reason" headers -> reason (parseRow headers line) = "".
Proof.
  intros H. unfold parseRow. cbv zeta.
  rewrite (forEach_keeps reason "reason"); auto using applyHeader_keeps_reason.
Qed.

Lemma filter_none {A : Type} (p : A -> bool) (l : list A) :
  (forall x, In x l -> p x = false) -> filter p l = [].
Proof.
  induction l as [|x l IH]; simpl; trivial.
  intros H. rewrite (H x) by now left. apply IH. intros y Hy. apply H. now right.
Qed.

End FieldFacts.

(** X3: the country of a decoded row is never empty.  It is the cell
    under the last country column, or "GLOBAL" when that cell is empty
    or the header has no country column. *)
Theorem country_decoding :
  (forall headers line, country (parseRow headers line) <> "")
  /\ (forall headers line,
        ~ In "country" headers -> country (parseRow headers line) = "GLOBAL")
  /\ (forall pre post line,
        ~ In "country" post ->
        country (parseRow (pre ++ "country" :: post) line)
        = if JS.truthy (cell (rowValues line) (List.length pre))
          then cell (rowValues line) (List.length pre)
          else "GLOBAL")
  /\ (forall csvData companies,
        parseCSV csvData = JS.Normal companies ->
        Forall (fun c => country c <> "") companies).
Proof.
  split; [exact parseRow_country_not_empty|]. split; [|split].
  - intros headers line H. unfold parseRow. cbv zeta.
    rewrite (forEach_keeps country "country");
      auto using applyHeader_keeps_country.
  - intros pre post line H.
    rewrite parseRow_at_column.
    rewrite (forEach_keeps country "country");
      auto using applyHeader_keeps_country.
  - intros csvData companies H. rewrite parseCSV_eq in H.
    injection H as <-. apply Forall_forall. intros c Hin.
    apply filter_In in Hin. destruct Hin as [Hin _].
    apply in_map_iff in Hin. destruct Hin as (line & <- & _).
    apply parseRow_country_not_empty.
Qed.

Lemma country_decoding_witness :
  parseCSV shortRow = JS.Normal [acme]
  /\ Forall (fun c => country c <> "") [acme].
Proof.
  assert (H : parseCSV shortRow = JS.Normal [acme]) by (vm_compute; reflexivity).
  split; [exact H|].
  exact (proj2 (proj2 (proj2 country_decoding)) shortRow [acme] H).
Defined.

(** X4: a text whose header line has no name column, or no reason
    column, gives no record at all, whatever its rows hold. *)
Theorem parseCSV_needs_name_and_reason_columns (csvData : string) :
  ~ In "name" (headerRow csvData) \/ ~ In "reason" (headerRow csvData) ->
  parseCSV csvData = JS.Normal [].
Proof.
  intros H. rewrite parseCSV_eq. f_equal.
  apply filter_none. intros c Hin.
  apply in_map_iff in Hin. destruct Hin as (line & <- & _).
  unfold admitted. destruct H as [H|H].
  - now rewrite (parseRow_without_name _ _ H).
  - rewrite (parseRow_without_reason _ _ H). apply andb_false_r.
Qed.

Lemma parseCSV_needs_name_and_reason_columns_witness :
  (~ In "name" (headerRow misnamedRows)
   \/ ~ In "reason" (headerRow misnamedRows))
  /\ parseCSV misnamedRows = JS.Normal [].
Proof.
  assert (H : ~ In "name" (headerRow misnamedRows)
              \/ ~ In "reason" (headerRow misnamedRows)).
  { left. change (headerRow misnamedRows) with ["company"; "reason"].
    simpl. intros [E|[E|[]]]; discriminate E. }
  split; [exact H|].
  exact (parseCSV_needs_name_and_reason_columns misnamedRows H).
Defined.

(** ** What a returned record can hold *)

Section CleanFacts.

Import JS.

Lemma trimmed_truthy_clean (s : string) :
  truthy (trim s) = true -> clean (trim s).
Proof.
  intros H. split; [now apply truthy_true_iff | apply trim_idempotent].
Qed.

Lemma decodeList_clean value : Forall clean (decodeList value).
Proof.
  rewrite decodeList_unguarded. apply Forall_forall. intros b Hin.
  apply filter_In in Hin. destruct Hin as [Hin T].
  apply in_map_iff in Hin. destruct Hin as (piece & <- & _).
  now apply trimmed_truthy_clean.
Qed.

Lemma orElse_trim_clean (v : option string) (d : string) :
  clean d -> clean (orElse (option_map trim v) d) .
Proof.
  intros Hd. destruct v as [x|]; simpl; trivial.
  destruct (truthy (trim x)) eqn:T; trivial.
  now apply trimmed_truthy_clean.
Qed.

Lemma clean_GLOBAL : clean "GLOBAL".
Proof. split; [discriminate | reflexivity]. Qed.

Lemma decodeAlternatives_clean value :
  Forall cleanAlternative (decodeAlternatives value).
Proof.
  apply Forall_forall. intros alt Hin.
  apply filter_In in Hin. destruct Hin as [Hin T].
  apply in_map_iff in Hin. destruct Hin as (piece & <- & _).
  split; [|split].
  - split; [now apply truthy_true_iff | apply decodeAlternative_name_trimmed].
  - apply orElse_trim_clean, clean_GLOBAL.
  - unfold decodeAlternative. cbn [Alternative.description].
    rewrite orElse_trim_nth. apply trim_idempotent.
Qed.

Lemma cell_country_clean pieces i :
  clean (orElse (Some (cell (map trim pieces) i)) "GLOBAL").
Proof.
  simpl. destruct (truthy (cell (map trim pieces) i)) eqn:T.
  - split; [now apply truthy_true_iff | apply cell_trimmed].
  - apply clean_GLOBAL.
Qed.

Lemma applyHeader_tidy pieces c h i :
  tidy c -> tidy (applyHeader (map trim pieces) c h i).
Proof.
  intros (Hn & Hr & Hc & Ha & Hb & Hu).
  switch h; try destruct (truthy (cell (map trim pieces) i));
    unfold tidy;
    cbn [name reason country alternatives barcodes proofUrls
         set_name set_boycott set_reason set_alternatives set_barcodes
         set_proofUrls set_country];
    (split; [|split; [|split; [|split; [|split]]]]);
    auto using cell_trimmed, cell_country_clean, decodeList_clean,
      decodeAlternatives_clean.
Qed.

Lemma parseRow_tidy headers line : tidy (parseRow headers line).
Proof.
  unfold parseRow, rowValues. cbv zeta.
  apply forEach_invariant with (ok := fun _ => True).
  - intros st x i _. apply applyHeader_tidy.
  - apply Forall_forall. trivial.
  - unfold tidy. simpl.
    split; [|split; [|split; [|split; [|split]]]];
      auto using clean_GLOBAL.
Qed.

Lemma admitted_tidy_clean c : tidy c -> admitted c = true -> cleanCompany c.
Proof.
  intros (Hn & Hr & Hc & Ha & Hb & Hu) Hadm.
  apply admitted_iff in Hadm. destruct Hadm as [Nn Nr].
  destruct Hc as [Nc Hc].
  repeat split; assumption.
Qed.

Lemma admitted_rows_clean headers lines :
  Forall cleanCompany (filter admitted (map (parseRow headers) lines)).
Proof.
  apply Forall_forall. intros c Hin.
  apply filter_In in Hin. destruct Hin as [Hin Hadm].
  apply in_map_iff in Hin. destruct Hin as (line & <- & _).
  apply admitted_tidy_clean; [apply parseRow_tidy | exact Hadm].
Qed.

End CleanFacts.

(** X5: every record a call returns is clean: name, reason and country
    are non-empty and trimmed, every barcode and proof URL is non-empty
    and trimmed, and every alternative has a non-empty trimmed name, a
    non-empty trimmed country code and a trimmed description. *)
Theorem parsed_records_are_clean (csvData : string)
        (companies : list CompanyFormData) :
  parseCSV csvData = JS.Normal companies -> Forall cleanCompany companies.
Proof.
  intros H. rewrite parseCSV_eq in H. injection H as <-.
  apply admitted_rows_clean.
Qed.

Lemma parsed_records_are_clean_witness :
  parseCSV sampleData <> JS.TypeError
  /\ match parseCSV sampleData with
     | JS.Normal companies => Forall cleanCompany companies
     | JS.TypeError => True
     end.
Proof.
  split; [vm_compute; discriminate|].
  destruct (parseCSV sampleData) as [companies|] eqn:E; [|exact I].
  exact (parsed_records_are_clean sampleData companies E).
Defined.

(** ** Cells that do not count *)

Section CellFacts.

Import JS.

Lemma applyHeader_by_cell values values' c h i :
  cell values i = cell values' i ->
  applyHeader values c h i = applyHeader values' c h i.
Proof.
  intros E. unfold applyHeader. cbv zeta. now rewrite E.
Qed.

Lemma forEach_applyHeader_by_cells values values' headers :
  forall i c,
    (forall k, i <= k < i + List.length headers ->
               cell values k = cell values' k) ->
    forEach (applyHeader values) headers i c
    = forEach (applyHeader values') headers i c.
Proof.
  induction headers as [|h headers IH]; intros i c H; simpl; trivial.
  rewrite (applyHeader_by_cell values values') by (apply H; simpl; lia).
  apply IH. intros k Hk. apply H. simpl. lia.
Qed.

Lemma cell_firstn values n k : k < n -> cell (firstn n values) k = cell values k.
Proof.
  intros H. unfold cell. now rewrite nth_error_firstn_below.
Qed.

Lemma split_app_sep (sep : ascii) (a b : string) :
  split sep (a ++ String sep b) = split sep a ++ split sep b.
Proof.
  induction a as [|c rest IH]; cbn -[Ascii.eqb].
  - now rewrite Ascii.eqb_refl.
  - rewrite IH. destruct (Ascii.eqb c sep); trivial.
    destruct (split_head sep rest) as (p & ps & E). rewrite E. reflexivity.
Qed.

Lemma cell_all_empty values k :
  Forall (fun v => v = "") values -> cell values k = "".
Proof.
  intros H. rewrite cell_nth. revert k.
  induction H as [|v vs Hv Hvs IH]; intros [|k]; simpl; auto.
Qed.

Lemma applyHeader_empty_cell values h i :
  cell values i = "" -> applyHeader values emptyCompany h i = emptyCompany.
Proof.
  intros E. unfold applyHeader. cbv zeta. rewrite E.
  repeat match goal with
         | |- context [String.eqb h ?k] => destruct (String.eqb h k)
         end; reflexivity.
Qed.

End CellFacts.

(** X6: a row is read through the cells under the header's columns
    only: two lines with the same cells in these columns are decoded
    alike, so whatever follows one more comma after the last column is
    ignored. *)
Theorem parseRow_ignores_surplus_cells :
  (forall headers line line',
      firstn (List.length headers) (rowValues line)
      = firstn (List.length headers) (rowValues line') ->
      parseRow headers line = parseRow headers line')
  /\ (forall headers line surplus,
        List.length headers <= List.length (rowValues line) ->
        parseRow headers (line ++ "," ++ surplus) = parseRow headers line).
Proof.
  assert (G : forall headers line line',
             firstn (List.length headers) (rowValues line)
             = firstn (List.length headers) (rowValues line') ->
             parseRow headers line = parseRow headers line').
  { intros headers line line' H. unfold parseRow. cbv zeta.
    apply forEach_applyHeader_by_cells. intros k Hk.
    rewrite <- (cell_firstn (rowValues line) (List.length headers)),
            <- (cell_firstn (rowValues line') (List.length headers)) by lia.
    now rewrite H. }
  split; [exact G|].
  intros headers line surplus Hlen. apply G.
  unfold rowValues in *.
  change (line ++ "," ++ surplus)%string
    with (line ++ String "," surplus)%string.
  rewrite split_app_sep, map_app, firstn_app.
  replace (List.length headers
           - List.length (map JS.trim (JS.split "," line))) with 0 by lia.
  simpl. apply app_nil_r.
Qed.

Lemma parseRow_ignores_surplus_cells_witness :
  List.length ["name"; "reason"] <= List.length (rowValues "Acme,why")
  /\ parseRow ["name"; "reason"] ("Acme,why" ++ "," ++ "x,y;z")
     = parseRow ["name"; "reason"] "Acme,why".
Proof.
  assert (H : List.length ["name"; "reason"]
              <= List.length (rowValues "Acme,why")) by (vm_compute; lia).
  split; [exact H|].
  exact (proj2 parseRow_ignores_surplus_cells
           ["name"; "reason"] "Acme,why" "x,y;z" H).
Defined.

(** X7: a line whose cells are all empty once trimmed, such as an
    empty line or a line of commas and blanks, is decoded to the
    initial company under any header and is never admitted. *)
Theorem blank_rows_are_dropped (headers : list string) (line : string) :
  Forall (fun v => v = "") (rowValues line) ->
  parseRow headers line = emptyCompany
  /\ admitted (parseRow headers line) = false.
Proof.
  intros H.
  assert (E : parseRow headers line = emptyCompany).
  { unfold parseRow. cbv zeta.
    apply (forEach_invariant (applyHeader (rowValues line)) (fun _ => True)
             (fun st => st = emptyCompany)); trivial.
    - intros st h i _ ->. apply applyHeader_empty_cell.
      now apply cell_all_empty.
    - apply Forall_forall. trivial. }
  rewrite E. split; reflexivity.
Qed.

Lemma blank_rows_are_dropped_witness :
  Forall (fun v => v = "") (rowValues " , ,")
  /\ parseRow (headersOf sampleHeader) " , ," = emptyCompany.
Proof.
  assert (H : Forall (fun v => v = "") (rowValues " , ,")).
  { repeat constructor. }
  split; [exact H|].
  exact (proj1 (blank_rows_are_dropped (headersOf sampleHeader) " , ," H)).
Defined.

(** ** Capitals in the header line *)

Section CaseFacts.

Import JS.

Ltac by_unit c :=
  destruct c as [[] [] [] [] [] [] [] []]; vm_compute; reflexivity.

Lemma lowerUnit_idempotent (c : ascii) : lowerUnit (lowerUnit c) = lowerUnit c.
Proof. by_unit c. Qed.

Lemma lowerUnit_isWhiteSpace (c : ascii) :
  isWhiteSpace (lowerUnit c) = isWhiteSpace c.
Proof. by_unit c. Qed.

Lemma lowerUnit_comma (c : ascii) :
  Ascii.eqb (lowerUnit c) "," = Ascii.eqb c ",".
Proof. by_unit c. Qed.

Lemma toLowerCase_idempotent (s : string) :
  toLowerCase (toLowerCase s) = toLowerCase s.
Proof.
  induction s as [|c rest IH]; simpl; trivial.
  now rewrite IH, lowerUnit_idempotent.
Qed.

Lemma toLowerCase_trimStart (s : string) :
  trimStart (toLowerCase s) = toLowerCase (trimStart s).
Proof.
  induction s as [|c rest IH]; simpl; trivial.
  rewrite lowerUnit_isWhiteSpace. destruct (isWhiteSpace c); trivial.
Qed.

Lemma toLowerCase_trimEnd (s : string) :
  trimEnd (toLowerCase s) = toLowerCase (trimEnd s).
Proof.
  induction s as [|c rest IH]; simpl; trivial.
  rewrite IH, lowerUnit_isWhiteSpace.
  destruct (trimEnd rest); simpl; trivial.
  destruct (isWhiteSpace c); reflexivity.
Qed.

Lemma toLowerCase_trim (s : string) :
  trim (toLowerCase s) = toLowerCase (trim s).
Proof.
  unfold trim. now rewrite toLowerCase_trimStart, toLowerCase_trimEnd.
Qed.

Lemma toLowerCase_split_comma (s : string) :
  split "," (toLowerCase s) = map toLowerCase (split "," s).
Proof.
  induction s as [|c rest IH]; cbn -[Ascii.eqb]; trivial.
  rewrite lowerUnit_comma, IH.
  destruct (Ascii.eqb c ","); trivial.
  destruct (split_head "," rest) as (p & ps & E). rewrite E. reflexivity.
Qed.

Lemma headersOf_toLowerCase (line0 : string) :
  headersOf (toLowerCase line0) = headersOf line0.
Proof.
  unfold headersOf. rewrite toLowerCase_split_comma, map_map.
  apply map_ext. intros h.
  now rewrite toLowerCase_trim, toLowerCase_idempotent.
Qed.

End CaseFacts.

(** X8: the header line is read without regard to capitals: two header
    lines that are equal once lower-cased name the same columns, and
    the names obtained are lower-case and trimmed. *)
Theorem header_names_ignore_case :
  (forall line0 line0',
      JS.toLowerCase line0 = JS.toLowerCase line0' ->
      headersOf line0 = headersOf line0')
  /\ (forall line0,
        Forall (fun h => JS.toLowerCase h = h /\ JS.trim h = h)
               (headersOf line0)).
Proof.
  split.
  - intros line0 line0' H.
    now rewrite <- (headersOf_toLowerCase line0),
                <- (headersOf_toLowerCase line0'), H.
  - intros line0. apply Forall_forall. intros h Hin.
    apply in_map_iff in Hin. destruct Hin as (piece & <- & _). split.
    + apply toLowerCase_idempotent.
    + rewrite <- toLowerCase_trim. now rewrite trim_idempotent.
Qed.

Lemma header_names_ignore_case_witness :
  JS.toLowerCase shoutedHeader = JS.toLowerCase "name, reason ,country"
  /\ headersOf shoutedHeader = ["name"; "reason"; "country"].
Proof.
  assert (H : JS.toLowerCase shoutedHeader
              = JS.toLowerCase "name, reason ,country") by reflexivity.
  split; [exact H|].
  exact (proj1 header_names_ignore_case
           shoutedHeader "name, reason ,country" H).
Defined.

(** ** The upload handler *)

(** The paths of [handleUpload]. *)
Ltac upload_paths upload st :=
  unfold handleUpload;
  destruct (JS.truthy (JS.trim (csvData st))) eqn:?Loaded; cbn [negb];
  [ destruct (parseCSV (csvData st)) as [[|?company ?companies]|] eqn:?Parsed;
    cbn [List.length Nat.eqb];
    [ | match goal with
        | |- context [upload ?cs] =>
            destruct (upload cs) as [?response|[|?data]] eqn:?Answer;
            [ destruct (BulkUploadResponse.success _) eqn:?Success | | ]
        end
      | ]
  | ].

Lemma blank_text_parses_to_nothing (text : string) :
  JS.trim text = "" -> parseCSV text = JS.Normal [].
Proof.
  intros H. unfold parseCSV, linesOf. rewrite H. reflexivity.
Qed.

(** X9: [handleUpload] calls the upload service at most once, and only
    with what [parseCSV] returned for the loaded text, which is then
    not empty and holds clean records only. *)
Theorem upload_sends_parsed_companies_only :
  (forall upload st,
      List.length (filter isApiUpload (handleUpload upload st)) <= 1)
  /\ (forall upload st companies,
        In (ApiUpload companies) (handleUpload upload st) ->
        parseCSV (csvData st) = JS.Normal companies
        /\ companies <> []
        /\ Forall cleanCompany companies).
Proof.
  split.
  - intros upload st. upload_paths upload st; simpl; lia.
  - intros upload st companies H.
    assert (G : parseCSV (csvData st) = JS.Normal companies /\ companies <> []).
    { revert H. upload_paths upload st; simpl; intros H;
        repeat match goal with
               | H : _ \/ _ |- _ => destruct H as [H|H]
               | H : False |- _ => destruct H
               | H : ApiUpload _ = ApiUpload _ |- _ =>
                   injection H as <-; split; [reflexivity | discriminate]
               | H : _ = ApiUpload _ |- _ => discriminate H
               end. }
    destruct G as [P N]. repeat split; trivial.
    rewrite parseCSV_eq in P. injection P as <-.
    apply admitted_rows_clean.
Qed.

Lemma upload_sends_parsed_companies_only_witness :
  In (ApiUpload [acme])
     (handleUpload (fun _ => Rejected (Value None)) (mkDialog false None shortRow))
  /\ Forall cleanCompany [acme].
Proof.
  assert (H : In (ApiUpload [acme])
                 (handleUpload (fun _ => Rejected (Value None))
                               (mkDialog false None shortRow))).
  { vm_compute. right. left. reflexivity. }
  split; [exact H|].
  exact (proj2 (proj2 (proj2 upload_sends_parsed_companies_only _ _ _ H))).
Defined.

Lemma handleUpload_blank upload st :
  JS.trim (csvData st) = "" -> afterEvents st (handleUpload upload st) = st.
Proof.
  intros B. unfold handleUpload. rewrite B. reflexivity.
Qed.

Lemma handleUpload_resets upload st :
  JS.trim (csvData st) <> "" ->
  isUploading (afterEvents st (handleUpload upload st)) = false.
Proof.
  intros B. apply truthy_true_iff in B.
  upload_paths upload st; try reflexivity. congruence.
Qed.

(** X10: a call of [handleUpload] shows at most one toast and never
    changes the loaded text.  It shows exactly one when no upload is
    attempted (blank text, or no record in the text) and when the
    service answers; it shows none when the service throws [null] or
    [undefined], on which the [catch] block itself throws.  When the
    loaded text is blank the state is left as it was; otherwise the
    call ends with [isUploading] false, whatever the service does. *)
Theorem upload_toasts_once_and_resets (upload : list CompanyFormData -> apiOutcome)
        (st : DialogState) :
  List.length (filter isToast (handleUpload upload st)) <= 1
  /\ (JS.trim (csvData st) = ""
      \/ parseCSV (csvData st) = JS.Normal []
      \/ (exists companies response,
             parseCSV (csvData st) = JS.Normal companies
             /\ upload companies = Resolved response) ->
      List.length (filter isToast (handleUpload upload st)) = 1)
  /\ (forall companies,
        parseCSV (csvData st) = JS.Normal companies ->
        companies <> [] ->
        upload companies = Rejected Nullish ->
        List.length (filter isToast (handleUpload upload st)) = 0)
  /\ csvData (afterEvents st (handleUpload upload st)) = csvData st
  /\ (JS.trim (csvData st) = "" ->
      afterEvents st (handleUpload upload st) = st)
  /\ (JS.trim (csvData st) <> "" ->
      isUploading (afterEvents st (handleUpload upload st)) = false).
Proof.
  split; [|split; [|split; [|split; [|split]]]].
  - upload_paths upload st; simpl; lia.
  - intros [B|[P|(companies & response & P & A)]].
    + unfold handleUpload. rewrite B. reflexivity.
    + upload_paths upload st; try reflexivity; congruence.
    + upload_paths upload st; try reflexivity; congruence.
  - intros companies P N A.
    assert (L : JS.truthy (JS.trim (csvData st)) = true).
    { destruct (JS.truthy (JS.trim (csvData st))) eqn:T; trivial.
      apply truthy_false_iff, blank_text_parses_to_nothing in T.
      congruence. }
    unfold handleUpload. rewrite L, P. cbn [negb].
    destruct companies as [|company companies]; [congruence|].
    cbn [List.length Nat.eqb]. rewrite A. reflexivity.
  - upload_paths upload st; reflexivity.
  - apply handleUpload_blank.
  - apply handleUpload_resets.
Qed.

Lemma upload_toasts_once_and_resets_witness :
  JS.trim (csvData (mkDialog true None twinRows)) <> ""
  /\ isUploading
       (afterEvents (mkDialog true None twinRows)
          (handleUpload (fun _ => Rejected (Value None)) (mkDialog true None twinRows)))
     = false.
Proof.
  assert (H : JS.trim (csvData (mkDialog true None twinRows)) <> "")
    by (vm_compute; discriminate).
  split; [exact H|].
  exact (proj2 (proj2 (proj2 (proj2 (proj2 (upload_toasts_once_and_resets
           (fun _ => Rejected (Value None)) (mkDialog true None twinRows)))))) H).
Defined.

(** X11: [onSuccess] is called exactly when the text gave at least one
    record and the service answered with [success] true; the results
    shown afterwards are the answer of the service whenever it
    answered, and the former ones otherwise. *)
Theorem upload_success_callback (upload : list CompanyFormData -> apiOutcome)
        (st : DialogState) :
  (In OnSuccess (handleUpload upload st)
   <-> exists companies response,
         parseCSV (csvData st) = JS.Normal companies
         /\ companies <> []
         /\ upload companies = Resolved response
         /\ BulkUploadResponse.success response = true)
  /\ uploadResults (afterEvents st (handleUpload upload st))
     = match parseCSV (csvData st) with
       | JS.Normal (company :: companies) =>
           match upload (company :: companies) with
           | Resolved response => Some response
           | Rejected _ => uploadResults st
           end
       | _ => uploadResults st
       end.
Proof.
  split.
  - split.
    + upload_paths upload st; simpl; intros H;
        repeat match goal with
               | H : _ \/ _ |- _ => destruct H as [H|H]
               | H : False |- _ => destruct H
               | H : _ = OnSuccess |- _ => discriminate H
               end.
      eexists _, _. repeat split; eauto. discriminate.
    + intros (companies & response & P & N & A & S).
      assert (L : JS.truthy (JS.trim (csvData st)) = true).
      { destruct (JS.truthy (JS.trim (csvData st))) eqn:T; trivial.
        apply truthy_false_iff, blank_text_parses_to_nothing in T.
        congruence. }
      unfold handleUpload. rewrite L, P. cbn [negb].
      destruct companies as [|company companies]; [congruence|].
      cbn [List.length Nat.eqb]. rewrite A, S. simpl. tauto.
  - destruct (JS.truthy (JS.trim (csvData st))) eqn:T.
    + upload_paths upload st; try reflexivity; congruence.
    + unfold handleUpload. rewrite T.
      apply truthy_false_iff, blank_text_parses_to_nothing in T.
      rewrite T. reflexivity.
Qed.

(** X12: between two handlers the dialog is never left uploading:
    from the initial state, after any handlers run one after the other
    (choosing files, uploading with any answers of the service,
    closing), [isUploading] is false. *)
Theorem dialog_is_idle_between_handlers (handlers : list handler) :
  isUploading (fold_left runHandler handlers initialDialog) = false.
Proof.
  assert (G : forall hs st,
             isUploading st = false ->
             isUploading (fold_left runHandler hs st) = false).
  { induction hs as [|h hs IH]; intros st Hst; simpl; trivial.
    apply IH. destruct h as [[text|]|upload|]; trivial.
    unfold runHandler.
    destruct (string_dec (JS.trim (csvData st)) "") as [B|B].
    - now rewrite (handleUpload_blank upload st B).
    - exact (handleUpload_resets upload st B). }
  now apply G.
Qed.

(** ** Authorisation *)

Section AuthFacts.

Lemma runAuthStep_tokens_agree auth s :
  token auth = storedToken auth ->
  token (runAuthStep auth s) = storedToken (runAuthStep auth s).
Proof.
  intros H. destruct s as [[data|]| |[r|]]; simpl; trivial.
  - destruct (LoginResponse.token data) as [t|]; trivial.
    destruct (LoginResponse.user data) as [u|]; trivial.
    destruct (LoginResponse.success data && JS.truthy t); trivial.
  - unfold initializeAuth. destruct (truthyField (token auth)); trivial.
    destruct (ProfileResponse.data r) as [u|]; trivial.
    destruct (ProfileResponse.success r); trivial.
  - unfold initializeAuth. destruct (truthyField (token auth)); trivial.
Qed.

Lemma hasRole_single auth (u : User.t) (r : string) :
  user auth = Some u ->
  hasRole auth (inl r) = (roleName (User.role u) =? r).
Proof.
  intros H. unfold hasRole. rewrite H. simpl. apply orb_false_r.
Qed.

Lemma roleName_super (r : Role) : (roleName r =? "super_admin") = true <-> r = super_admin.
Proof.
  destruct r; simpl; split; intros H; congruence.
Qed.

Lemma hasPermission_super auth (u : User.t) (p : string) :
  user auth = Some u -> User.role u = super_admin -> hasPermission auth p = true.
Proof.
  intros H R. unfold hasPermission. now rewrite H, R.
Qed.

End AuthFacts.

(** X13: the token of the authentication state and the token of the
    local storage never part: from the state [AuthProvider] starts in,
    after any logins, logouts and profile checks, whatever the service
    answers, both hold the same value. *)
Theorem auth_token_matches_storage (stored : option string)
        (steps : list authStep) :
  token (fold_left runAuthStep steps (initialAuth stored))
  = storedToken (fold_left runAuthStep steps (initialAuth stored)).
Proof.
  assert (G : forall l auth,
             token auth = storedToken auth ->
             token (fold_left runAuthStep l auth)
             = storedToken (fold_left runAuthStep l auth)).
  { induction l as [|s l IH]; intros auth H; simpl; trivial.
    apply IH. now apply runAuthStep_tokens_agree. }
  now apply G.
Qed.



(** X15: what the navigation of [Layout] shows.  "Companies" is always
    its first entry and, without a user, its only one.  "User
    Management" is shown to a super admin and to nobody else, whatever
    the permissions say.  An entry without a role is shown exactly when
    it asks for no permission or [hasPermission] grants the one it
    asks for; a super admin sees all five entries. *)
Theorem navigation_entries (auth : AuthState) :
  (exists rest,
      navigation auth = mkNav "Companies" "/" "Building2" None None :: rest)
  /\ (user auth = None ->
      navigation auth = [mkNav "Companies" "/" "Building2" None None])
  /\ (In "User Management" (map navName (navigation auth))
      <-> exists u, user auth = Some u /\ User.role u = super_admin)
  /\ (forall item p,
        In item navigationItems ->
        navRole item = None ->
        navPermission item = Some p ->
        (In item (navigation auth) <-> hasPermission auth p = true))
  /\ ((exists u, user auth = Some u /\ User.role u = super_admin) ->
      navigation auth = navigationItems).
Proof.
  split; [eexists; reflexivity|].
  split.
  { intros H. unfold navigation, navVisible, hasRole, hasPermission.
    rewrite H. reflexivity. }
  split.
  { unfold navigation. split.
    - intros H. apply in_map_iff in H. destruct H as (item & Hn & Hin).
      apply filter_In in Hin. destruct Hin as [Hin Hv].
      simpl in Hin.
      destruct Hin as [<-|[<-|[<-|[<-|[<-|[]]]]]]; try discriminate Hn.
      unfold navVisible in Hv. cbn [navRole navPermission truthyField JS.truthy JS.orElse andb] in Hv.
      destruct (user auth) as [u|] eqn:U.
      + exists u. split; trivial.
        rewrite (hasRole_single auth u _ U) in Hv.
        apply roleName_super.
        destruct (roleName (User.role u) =? "super_admin"); [reflexivity | discriminate].
      + unfold hasRole in Hv. rewrite U in Hv. discriminate.
    - intros (u & U & R). apply in_map_iff.
      exists (mkNav "User Management" "/users" "Users" (Some "canManageUsers")
                    (Some "super_admin")).
      split; trivial. apply filter_In. split; [simpl; tauto|].
      unfold navVisible. cbn [navRole navPermission truthyField JS.truthy JS.orElse andb].
      rewrite (hasRole_single auth u _ U), (hasPermission_super auth u _ U R), R.
      reflexivity. }
  split.
  { intros item p Hin Hr Hp. unfold navigation.
    rewrite filter_In. unfold navVisible. rewrite Hr, Hp.
    simpl in Hin.
    destruct Hin as [<-|[<-|[<-|[<-|[<-|[]]]]]]; try discriminate Hr;
      try discriminate Hp;
      injection Hp as <-; cbn [truthyField JS.truthy JS.orElse andb negb];
      destruct (hasPermission auth _); simpl; intuition congruence. }
  intros (u & U & R). unfold navigation.
  unfold navVisible, hasRole, hasPermission. rewrite U, R. reflexivity.
Qed.

Lemma navigation_entries_witness :
  user (initialAuth (Some "t0k3n")) = None
  /\ navigation (initialAuth (Some "t0k3n"))
     = [mkNav "Companies" "/" "Building2" None None].
Proof.
  assert (H : user (initialAuth (Some "t0k3n")) = None) by reflexivity.
  split; [exact H|].
  exact (proj1 (proj2 (navigation_entries (initialAuth (Some "t0k3n")))) H).
Defined.

(** X16: [ProtectedRoute] shows its children exactly when loading is
    over, a user is there, the required permission (if one is named)
    is granted by [hasPermission] and the required role or roles (if
    given) are met by [hasRole].  Without a user it sends to the login
    page once loading is over, whatever is required. *)
Theorem protected_route_guard (auth : AuthState)
        (requirePermission : option string)
        (requireRole : option (string + list string)) (fallback : bool) :
  (ProtectedRoute auth requirePermission requireRole fallback = ShowChildren
   <-> isLoading auth = false
       /\ user auth <> None
       /\ (forall p, requirePermission = Some p -> p <> "" ->
                     hasPermission auth p = true)
       /\ (forall r, requireRole = Some r -> r <> inl "" ->
                     hasRole auth r = true))
  /\ (isLoading auth = false -> user auth = None ->
      ProtectedRoute auth requirePermission requireRole fallback
      = NavigateTo "/login").
Proof.
  split.
  - unfold ProtectedRoute.
    destruct (isLoading auth); [split; [discriminate | intros (H & _); discriminate]|].
    destruct (user auth) as [u|] eqn:U;
      [|split; [discriminate | intros (_ & H & _); congruence]].
    assert (P : (truthyField requirePermission
                 && negb (hasPermission auth (JS.orElse requirePermission "")))
                = false
                <-> forall p, requirePermission = Some p -> p <> "" ->
                              hasPermission auth p = true).
    { destruct requirePermission as [[|c p]|];
        cbn [truthyField JS.truthy JS.orElse andb].
      - split; [|reflexivity]. intros _ p E N. injection E as <-. congruence.
      - destruct (hasPermission auth (String c p)) eqn:HP; cbn [negb]; split.
        + intros _ q E _. injection E as <-. exact HP.
        + reflexivity.
        + discriminate.
        + intros H. specialize (H _ eq_refl). rewrite HP in H.
          symmetry. apply H. discriminate.
      - split; [|reflexivity]. discriminate. }
    assert (R : (truthyRole requireRole
                 && negb (hasRole auth (match requireRole with
                                        | Some r => r
                                        | None => inr []
                                        end)))
                = false
                <-> forall r, requireRole = Some r -> r <> inl "" ->
                              hasRole auth r = true).
    { destruct requireRole as [r|];
        [|split; [discriminate | reflexivity]].
      assert (T : truthyRole (Some r) = true <-> r <> inl "").
      { destruct r as [[|c one]|several]; simpl; split;
          congruence. }
      destruct (truthyRole (Some r)) eqn:TR; cbn [andb].
      - destruct (hasRole auth r) eqn:HR; cbn [negb]; split.
        + intros _ q E _. injection E as <-. exact HR.
        + reflexivity.
        + discriminate.
        + intros H. specialize (H _ eq_refl). rewrite HR in H.
          symmetry. apply H. now apply T.
      - split; [|reflexivity]. intros _ q E N. injection E as <-.
        apply T in N. congruence. }
    destruct (truthyField requirePermission
              && negb (hasPermission auth (JS.orElse requirePermission ""))).
    + split.
      * destruct fallback; discriminate.
      * intros (_ & _ & HP & _). apply P in HP. discriminate.
    + destruct (truthyRole requireRole
                && negb (hasRole auth (match requireRole with
                                       | Some r => r
                                       | None => inr []
                                       end))).
      * split.
        -- destruct fallback; discriminate.
        -- intros (_ & _ & _ & HR). apply R in HR. discriminate.
      * split; trivial. intros _.
        repeat split; try discriminate; [now apply P | now apply R].
  - intros L U. unfold ProtectedRoute. now rewrite L, U.
Qed.

Lemma protected_route_guard_witness :
  isLoading (signedIn moderator) = false
  /\ user (signedIn moderator) <> None
  /\ ProtectedRoute (signedIn moderator) (Some "canBulkUpload")
       (Some (inr ["admin"; "moderator"])) false
     = ShowChildren.
Proof.
  split; [reflexivity|]. split; [discriminate|].
  apply (proj1 (protected_route_guard (signedIn moderator)
                  (Some "canBulkUpload")
                  (Some (inr ["admin"; "moderator"])) false)).
  split; [reflexivity|]. split; [discriminate|]. split.
  - intros p E _. injection E as <-. reflexivity.
  - intros r E _. injection E as <-. reflexivity.
Defined.

(** ** The form's clean-up and the parser *)

Section FormFacts.

Lemma filter_all {A : Type} (p : A -> bool) (l : list A) :
  Forall (fun x => p x = true) l -> filter p l = l.
Proof.
  induction 1 as [|x l Hx Hl IH]; simpl; trivial.
  now rewrite Hx, IH.
Qed.

Lemma filter_twice {A : Type} (p : A -> bool) (l : list A) :
  filter p (filter p l) = filter p l.
Proof.
  apply filter_all, Forall_forall. intros x Hin.
  now apply filter_In in Hin.
Qed.

Lemma clean_not_blank (s : string) : clean s -> negb (JS.trim s =? "") = true.
Proof.
  intros [N T]. rewrite T. destruct s; [congruence | reflexivity].
Qed.

Lemma onFormSubmit_clean data : cleanCompany data -> onFormSubmit data = data.
Proof.
  intros (_ & _ & _ & Ha & Hb & Hu).
  unfold onFormSubmit. destruct data as [n b r alts bars urls c]. simpl in *.
  f_equal; apply filter_all.
  - eapply Forall_impl; [|exact Ha].
    intros alt (Hn & _). now apply clean_not_blank.
  - eapply Forall_impl; [|exact Hb]. apply clean_not_blank.
  - eapply Forall_impl; [|exact Hu]. apply clean_not_blank.
Qed.

End FormFacts.

(** X17: the clean-up the form applies before submitting is
    idempotent, and the records of a bulk import need none: every
    record [parseCSV] returns is left unchanged by [onFormSubmit]. *)
Theorem form_cleanup_keeps_parsed_records :
  (forall data, onFormSubmit (onFormSubmit data) = onFormSubmit data)
  /\ (forall data, cleanCompany data -> onFormSubmit data = data)
  /\ (forall csvData companies,
        parseCSV csvData = JS.Normal companies ->
        map onFormSubmit companies = companies).
Proof.
  split; [|split].
  - intros data. unfold onFormSubmit. simpl. now rewrite !filter_twice.
  - exact onFormSubmit_clean.
  - intros csvData companies H. rewrite parseCSV_eq in H. injection H as <-.
    pose proof (admitted_rows_clean (headerRow csvData) (dataLines csvData)) as C.
    induction C as [|c l Hc Hl IH]; simpl; trivial.
    now rewrite (onFormSubmit_clean c Hc), IH.
Qed.

Lemma form_cleanup_keeps_parsed_records_witness :
  parseCSV sampleData <> JS.TypeError
  /\ match parseCSV sampleData with
     | JS.Normal companies => map onFormSubmit companies = companies
     | JS.TypeError => True
     end.
Proof.
  split; [vm_compute; discriminate|].
  destruct (parseCSV sampleData) as [companies|] eqn:E; [|exact I].
  exact (proj2 (proj2 form_cleanup_keeps_parsed_records) sampleData companies E).
Defined.
